(** * SignStructureCalcLite: the numerical core of [src/App.tsx]

  A shallow embedding of the calculation engine of the sign-structure
  calculator: wind load, anchor-group tension distribution and interaction
  ratio, footing stability evaluation, the brute-force footing optimiser and
  the part of the configuration import that touches the anchor embedment.

  Numbers.  In the checks, JavaScript numbers are modelled by exact
  rationals [Q]; every identity there is one of exact arithmetic and is
  stated with [==].  The value [Infinity], which the source uses as a
  failing pressure or ratio, is the constructor [JS.Inf] of the extended
  numbers [JS.num], and [NaN] does not occur: all inputs are finite
  rationals.  The footing search is different: which candidates its loops
  visit, and which of them pass, is decided by the rounding of binary64, so
  the search and the evaluation it calls are embedded over the primitive
  doubles of the kernel (modules [F64], [Foundation64], [Optimizer]). *)

From Stdlib Require Import QArith Qminmax Qabs Qround Qpower ZArith List Sorted String Bool Lia Lqa.
From Stdlib Require PrimFloat FloatOps SpecFloat FloatAxioms Uint63.
Import ListNotations.
Open Scope Q_scope.

(** A decimal literal of a double, such as [0.05], denotes the double
    nearest to it, as it does in the source. *)
Set Warnings "-inexact-float".

(* ================================================================== *)
(** * Part I.  The embedding *)
(* ================================================================== *)

(** ** JavaScript arithmetic used by the source *)
Module JS.

(** [x < y], [x <= y], [x >= y], [x > y] as the booleans the source tests. *)
Definition ltb (x y : Q) : bool := negb (Qle_bool y x).
Definition leb (x y : Q) : bool := Qle_bool x y.
Definition geb (x y : Q) : bool := Qle_bool y x.
Definition gtb (x y : Q) : bool := negb (Qle_bool x y).

(** [Number(x) || d]: the fallback [d] replaces a zero. *)
Definition or_num (x d : Q) : Q := if Qeq_bool x 0 then d else x.

(** [Math.floor]. *)
Definition floor (x : Q) : Q := inject_Z (Qfloor x).

(** [Math.max(...l, last)]. *)
Definition max_list (l : list Q) (last : Q) : Q := fold_right Qmax last l.

(** Finite numbers and [Infinity]. *)
Inductive num : Type :=
| Fin (q : Q)
| Inf.

Definition add (a b : num) : num :=
  match a, b with
  | Fin x, Fin y => Fin (x + y)
  | _, _ => Inf
  end.

(** [a < q] for a finite bound [q]. *)
Definition num_ltb (a : num) (q : Q) : bool :=
  match a with
  | Fin x => ltb x q
  | Inf => false
  end.

(** Equality of extended numbers, up to the value of the fraction. *)
Definition num_eq (a b : num) : Prop :=
  match a, b with
  | Fin x, Fin y => x == y
  | Inf, Inf => True
  | _, _ => False
  end.

End JS.

(** ** Wind load (lines 74 and 1005-1021) *)
Module Wind.

Inductive CfMode : Type := SHAPE_ONLY | CF_INCLUDES_ALL.

Record Inputs : Type := {
  windV0 : Q;
  windKz : Q;
  windGf : Q;
  windIw : Q;
  windKd : Q;
  windKt : Q;
  cfMode : CfMode;
  shapeCf : Q;
  width : Q;
  height : Q;
  areaFactor : Q
}.

Definition wind_q0 (V0 : Q) : Q := 0.613 * V0 * V0.

Definition eff (m : CfMode) (k : Q) : Q :=
  match m with
  | CF_INCLUDES_ALL => 1
  | SHAPE_ONLY => k
  end.

Definition panelArea (i : Inputs) : Q := width i * height i * areaFactor i.

Definition q0 (i : Inputs) : Q := wind_q0 (windV0 i).

Definition qz (i : Inputs) : Q :=
  let Kz_eff := eff (cfMode i) (windKz i) in
  let Gf_eff := eff (cfMode i) (windGf i) in
  let Iw_eff := eff (cfMode i) (windIw i) in
  let Kd_eff := eff (cfMode i) (windKd i) in
  let Kt_eff := eff (cfMode i) (windKt i) in
  q0 i * Kz_eff * Gf_eff * Iw_eff * Kd_eff * Kt_eff.

Definition Fw_total (i : Inputs) : Q := qz i * shapeCf i * panelArea i.

(** Scenario A of the specification. *)
Definition scenarioA : Inputs := {|
  windV0 := 34;
  windKz := 1; windGf := 1; windIw := 1; windKd := 1; windKt := 1;
  cfMode := SHAPE_ONLY;
  shapeCf := 2;
  width := 3; height := 2; areaFactor := 1
|}.

End Wind.

(** ** Anchor group (lines 136-157 and 1084-1131) *)
Module Anchor.

Record AnchorSpec : Type := {
  name : string;
  d : Q;
  Ta : Q;
  Va : Q;
  min_e : option Q;
  min_s : option Q;
  hefRec : option Q
}.

Record Coord : Type := { c_id : string; c_x : Q; c_y : Q }.

Record Tension : Type := { id : string; x : Q; y : Q; T : Q }.

(** The four anchor positions of the 2x2 arrangement, in mm. *)
Definition coords (anchorGauge anchorPitch : Q) : list Coord :=
  let xh := anchorPitch / 2 in
  let yh := anchorGauge / 2 in
  [ {| c_id := "UL"; c_x := - xh; c_y := yh |};
    {| c_id := "UR"; c_x := xh; c_y := yh |};
    {| c_id := "LL"; c_x := - xh; c_y := - yh |};
    {| c_id := "LR"; c_x := xh; c_y := - yh |} ].

Definition computeAnchorTensions (M anchorGauge anchorPitch : Q)
  : list Tension * Q :=
  let cs := coords anchorGauge anchorPitch in
  let sumY2 := fold_left (fun s c => s + (c_y c / 1000) ^ 2) cs 0 in
  let list :=
    map (fun c =>
           {| id := c_id c; x := c_x c; y := c_y c;
              T := if JS.ltb 0 sumY2
                   then (M * (c_y c / 1000)) / sumY2
                   else 0 |}) cs in
  (list, sumY2).

Definition T_each (M anchorGauge anchorPitch : Q) : list Tension :=
  fst (computeAnchorTensions M anchorGauge anchorPitch).

Definition sumY2 (anchorGauge anchorPitch : Q) : Q :=
  snd (computeAnchorTensions 0 anchorGauge anchorPitch).

(** [Tmax = Math.max(...T_each.map(o => Math.max(0, o.T)), 0)]. *)
Definition Tmax (M anchorGauge anchorPitch : Q) : Q :=
  JS.max_list (map (fun o => Qmax 0 (T o)) (T_each M anchorGauge anchorPitch)) 0.

(** [T_row = Math.max(...T_each.filter(o => o.y > 0).map(o => o.T), 0)]. *)
Definition T_row (M anchorGauge anchorPitch : Q) : Q :=
  JS.max_list
    (map T (filter (fun o => JS.ltb 0 (y o)) (T_each M anchorGauge anchorPitch)))
    0.

(** The moment carried by the distribution: sum of T times the offset in
    metres ([y / 1000], the offset the distribution itself uses). *)
Definition moment_of (l : list Tension) : Q :=
  fold_right (fun o s => T o * (y o / 1000) + s) 0 l.

(** Shear per anchor in the verification (lines 1091-1093). *)
Definition ANCHOR_CALC_QTY (anchorQty : Q) : Q :=
  Qmax 2 (JS.floor (JS.or_num anchorQty 4)).

Definition V_anchor (Fh anchorQty : Q) : Q := Fh / ANCHOR_CALC_QTY anchorQty.

(** Shear per anchor in the automatic design (lines 2204-2207). *)
Definition ANCHOR_CALC_QTY_FIXED : Q := 4.

Definition V_c (Fh q_local : Q) : Q := Fh / ANCHOR_CALC_QTY_FIXED.

(** Interaction ratio (lines 1117-1124).  [Ta_conc], the concrete-side
    capacity, involves a square root and is taken as a given number. *)
Definition Ta_eff (anchor : AnchorSpec) (Ta_conc : Q) : Q :=
  Qmin (Ta anchor) Ta_conc.

Definition tension_term (Ta_eff Tmax : Q) : JS.num :=
  if JS.ltb 0 Ta_eff then JS.Fin (Tmax / Ta_eff) else JS.Inf.

Definition shear_term (Va_eff V_anchor : Q) : JS.num :=
  if JS.ltb 0 Va_eff then JS.Fin (V_anchor / Va_eff) else JS.Fin 0.

Definition etaAnchorLinear (Ta_eff Va_eff Tmax V_anchor : Q) : JS.num :=
  JS.add (tension_term Ta_eff Tmax) (shear_term Va_eff V_anchor).

(** The anchor conjunct of [overallOK]: [etaAnchorLinear < 1]. *)
Definition anchorOK (Ta_eff Va_eff Tmax V_anchor : Q) : bool :=
  JS.num_ltb (etaAnchorLinear Ta_eff Va_eff Tmax V_anchor) 1.

(** [a.hefRec || a.d * 10]. *)
Definition hefRec_or (a : AnchorSpec) (dflt : Q) : Q :=
  match hefRec a with
  | Some h => JS.or_num h dflt
  | None => dflt
  end.

(** Required embedment (lines 1127-1131). *)
Definition hefReq (signType : string) (anchor : AnchorSpec) : Q :=
  if String.eqb signType "freestanding"
  then d anchor * 20
  else hefRec_or anchor (d anchor * 10).

Definition hefOK (signType : string) (anchor : AnchorSpec) (anchorEmbed : Q) : bool :=
  JS.geb anchorEmbed (hefReq signType anchor).

(** The tension of the upper and of the lower anchors when the sum of
    squares is positive. *)
Definition upper (M g p : Q) : Q := (M * (g / 2 / 1000)) / sumY2 g p.
Definition lower (M g p : Q) : Q := (M * (- (g / 2) / 1000)) / sumY2 g p.

End Anchor.

(** ** Footing stability (lines 1142-1286) *)
Module Foundation.

Inductive FootShape : Type := RECT | L.

Inductive ContactMode : Type := full | partial | none.

Inductive OptMode : Type := BD | VOL.

(** Passive earth pressure coefficient [PASSIVE_SOIL.Kp]. *)
Definition Kp : Q := 3.

(** The variables of the component that [evalFoundation] reads from its
    enclosing scope. *)
Record Env : Type := {
  L_t1 : Q;
  L_t2 : Q;
  footShape : FootShape;
  concUnitW : Q;
  soilUnitW : Q;
  coverT : Q;
  Wself_perCol : Q;
  M : Q;
  Fh : Q;
  soilQa : Q;
  gammaBearing : Q;
  Fc : Q;
  embedDepth : Q;
  etaPassive : Q;
  allowUpliftOK : bool;
  reqFS_OT : Q;
  reqFS_SL : Q;
  mu : Q;
  foundationOptMode : OptMode
}.

(** The returned object, with the two locals [contactMode] and [b_eff]
    kept alongside so that statements can refer to them. *)
Record Result : Type := {
  ok : bool;
  N : Q;
  e : Q;
  sigma_max : JS.num;
  sigma_min : Q;
  noUplift : bool;
  qa_allow_soil : Q;
  qa_allow_conc : Q;
  qa_allow_final : Q;
  bearingOK : bool;
  leverArm_OT : Q;
  FS_OT : Q;
  OT_OK : bool;
  FS_SL : Q;
  SL_OK : bool;
  volume : Q;
  areaBD : Q;
  B_eff : Q;
  B : Q;
  D : Q;
  H : Q;
  Pp : Q;
  Pp_raw : Q;
  M_passive : Q;
  z : Q;
  R_slide : Q;
  contactMode : ContactMode;
  b_eff : Q
}.

Definition evalFoundation (env : Env) (B D H : Q) : Result :=
  let t1 := Qmax 0 (JS.or_num (L_t1 env) 0) in
  let t2 := Qmax 0 (JS.or_num (L_t2 env) 0) in
  let A :=
    match footShape env with
    | L => Qmax (B * t1 + D * t2 - t1 * t2) 1e-9
    | RECT => Qmax (B * D) 1e-9
    end in
  let A_weight :=
    match footShape env with
    | L => Qmax (B * t1 + D * t2 - t1 * t2) 1e-9
    | RECT => Qmax (B * D) 1e-9
    end in
  let Wconc := concUnitW env * 1000 * (A_weight * H) in
  let Wcover := soilUnitW env * 1000 * (A_weight * coverT env) in
  let N := Wconc + Wcover + Wself_perCol env in
  let e := Qabs (M env) / Qmax N 1e-9 in
  let e_lim := B / 6 in
  let contactMode :=
    if JS.leb e e_lim then full
    else if JS.ltb e (B / 2) then partial
    else none in
  let b_eff :=
    match contactMode with
    | full => B
    | partial => Qmax (3 * (B / 2 - e)) 0
    | none => 0
    end in
  let A_full := Qmax (B * D) 1e-9 in
  let A_contact := Qmax (b_eff * D) 1e-9 in
  let sigma_avg_full := N / A_full in
  let sigma_max :=
    match contactMode with
    | full => JS.Fin (sigma_avg_full * (1 + (6 * e) / Qmax B 1e-9))
    | partial => JS.Fin ((2 * N) / A_contact)
    | none => JS.Inf
    end in
  let sigma_min :=
    match contactMode with
    | full => sigma_avg_full * (1 - (6 * e) / Qmax B 1e-9)
    | partial => 0
    | none => 0
    end in
  let noUplift :=
    match contactMode with
    | full => JS.geb sigma_min 0
    | partial => false
    | none => false
    end in
  let qa_allow_soil := soilQa env / Qmax (gammaBearing env) 1e-9 in
  let qa_allow_conc := 0.25 * Fc env * 1000 in
  let qa_allow_final := Qmin qa_allow_soil qa_allow_conc in
  let bearingOK :=
    match sigma_max with
    | JS.Fin s => JS.leb (s / 1000) qa_allow_final
    | JS.Inf => false
    end in
  let z := Qmax 0 (JS.or_num (embedDepth env) 0) in
  let gammaN := soilUnitW env * 1000 in
  let Pp_raw := if JS.gtb z 0 then 0.5 * Kp * gammaN * D * z * z else 0 in
  let Pp := Pp_raw * etaPassive env in
  let M_passive := if JS.gtb z 0 then Pp * (z / 3) else 0 in
  let leverArm_OT := Qmax (B / 2 - e) 0 in
  let MrN := N * leverArm_OT in
  let Mr := MrN + M_passive in
  let FS_OT := Mr / Qmax (Qabs (M env)) 1e-9 in
  let OT_OK :=
    if allowUpliftOK env
    then JS.geb FS_OT (reqFS_OT env)
    else JS.geb FS_OT (reqFS_OT env) && noUplift in
  let contactRatio :=
    if JS.gtb B 0 then Qmin (Qmax (b_eff / B) 0) 1 else 0 in
  let N_eff := N * contactRatio in
  let R_slide := mu env * N_eff + Pp in
  let FS_SL := R_slide / Qmax (Fh env) 1e-9 in
  let SL_OK := JS.geb FS_SL (reqFS_SL env) in
  let ok := bearingOK && OT_OK && SL_OK in
  {| ok := ok;
     N := N;
     e := e;
     sigma_max := sigma_max;
     sigma_min := sigma_min;
     noUplift := noUplift;
     qa_allow_soil := qa_allow_soil;
     qa_allow_conc := qa_allow_conc;
     qa_allow_final := qa_allow_final;
     bearingOK := bearingOK;
     leverArm_OT := leverArm_OT;
     FS_OT := FS_OT;
     OT_OK := OT_OK;
     FS_SL := FS_SL;
     SL_OK := SL_OK;
     volume := A * H;
     areaBD := A;
     B_eff := B;
     B := B;
     D := D;
     H := H;
     Pp := Pp;
     Pp_raw := Pp_raw;
     M_passive := M_passive;
     z := z;
     R_slide := R_slide;
     contactMode := contactMode;
     b_eff := b_eff |}.

(** *** The intermediate values of [evalFoundation], one by one

    The same expressions as above, named, so that statements and proofs can
    refer to them; [evalFoundation] is shown to be built from them. *)

Definition t1_of (env : Env) : Q := Qmax 0 (JS.or_num (L_t1 env) 0).
Definition t2_of (env : Env) : Q := Qmax 0 (JS.or_num (L_t2 env) 0).

Definition area (env : Env) (B D : Q) : Q :=
  match footShape env with
  | L => Qmax (B * t1_of env + D * t2_of env - t1_of env * t2_of env) 1e-9
  | RECT => Qmax (B * D) 1e-9
  end.

Definition N_of (env : Env) (B D H : Q) : Q :=
  concUnitW env * 1000 * (area env B D * H)
  + soilUnitW env * 1000 * (area env B D * coverT env)
  + Wself_perCol env.

Definition e_val (env : Env) (Nv : Q) : Q := Qabs (M env) / Qmax Nv 1e-9.

Definition mode_val (ev B : Q) : ContactMode :=
  if JS.leb ev (B / 6) then full
  else if JS.ltb ev (B / 2) then partial
  else none.

Definition b_eff_val (m : ContactMode) (ev B : Q) : Q :=
  match m with
  | full => B
  | partial => Qmax (3 * (B / 2 - ev)) 0
  | none => 0
  end.

Definition sigma_max_val (m : ContactMode) (Nv ev B D : Q) : JS.num :=
  match m with
  | full => JS.Fin (Nv / Qmax (B * D) 1e-9 * (1 + (6 * ev) / Qmax B 1e-9))
  | partial => JS.Fin ((2 * Nv) / Qmax (b_eff_val m ev B * D) 1e-9)
  | none => JS.Inf
  end.

Definition sigma_min_val (m : ContactMode) (Nv ev B D : Q) : Q :=
  match m with
  | full => Nv / Qmax (B * D) 1e-9 * (1 - (6 * ev) / Qmax B 1e-9)
  | partial => 0
  | none => 0
  end.

Definition noUplift_val (m : ContactMode) (Nv ev B D : Q) : bool :=
  match m with
  | full => JS.geb (sigma_min_val m Nv ev B D) 0
  | partial => false
  | none => false
  end.

Definition qa_final (env : Env) : Q :=
  Qmin (soilQa env / Qmax (gammaBearing env) 1e-9) (0.25 * Fc env * 1000).

Definition bearing_val (env : Env) (s : JS.num) : bool :=
  match s with
  | JS.Fin x => JS.leb (x / 1000) (qa_final env)
  | JS.Inf => false
  end.

Definition z_of (env : Env) : Q := Qmax 0 (JS.or_num (embedDepth env) 0).

Definition Pp_raw_of (env : Env) (D : Q) : Q :=
  if JS.gtb (z_of env) 0
  then 0.5 * Kp * (soilUnitW env * 1000) * D * z_of env * z_of env
  else 0.

Definition Pp_of (env : Env) (D : Q) : Q := Pp_raw_of env D * etaPassive env.

Definition M_passive_of (env : Env) (D : Q) : Q :=
  if JS.gtb (z_of env) 0 then Pp_of env D * (z_of env / 3) else 0.

Definition FS_OT_val (env : Env) (Nv ev B D : Q) : Q :=
  (Nv * Qmax (B / 2 - ev) 0 + M_passive_of env D) / Qmax (Qabs (M env)) 1e-9.

Definition OT_val (env : Env) (fs : Q) (nu : bool) : bool :=
  if allowUpliftOK env
  then JS.geb fs (reqFS_OT env)
  else JS.geb fs (reqFS_OT env) && nu.

Definition contactRatio_val (B be : Q) : Q :=
  if JS.gtb B 0 then Qmin (Qmax (be / B) 0) 1 else 0.

Definition R_slide_val (env : Env) (Nv B be D : Q) : Q :=
  mu env * (Nv * contactRatio_val B be) + Pp_of env D.

Definition FS_SL_val (env : Env) (Nv B be D : Q) : Q :=
  R_slide_val env Nv B be D / Qmax (Fh env) 1e-9.

Definition SL_val (env : Env) (fs : Q) : bool := JS.geb fs (reqFS_SL env).

(** The verdict in terms of the named values. *)
Definition ok_val (env : Env) (B D H : Q) : bool :=
  let Nv := N_of env B D H in
  let ev := e_val env Nv in
  let m := mode_val ev B in
  let be := b_eff_val m ev B in
  bearing_val env (sigma_max_val m Nv ev B D)
  && OT_val env (FS_OT_val env Nv ev B D) (noUplift_val m Nv ev B D)
  && SL_val env (FS_SL_val env Nv B be D).

(** The eccentricity the specification speaks of, |M| / N. *)
Definition e_spec (env : Env) (B D H : Q) : Q := Qabs (M env) / N_of env B D H.

End Foundation.

(** ** Binary64 arithmetic of the footing search

    The loops of the footing search step their counters by 0.05 in
    binary64, and the rounding of these additions decides which candidates
    are visited.  The search is therefore embedded over the primitive
    doubles of the kernel, operation by operation in the order of the
    source; [0.6], [1e-9] and the like denote the doubles the source's
    literals denote. *)
Module F64.
Import PrimFloat.
Open Scope float_scope.

(** [Math.max(a, b)] and [Math.min(a, b)]: [NaN] if either argument is
    [NaN]; of two zeros, [max] prefers [+0] and [min] prefers [-0]. *)
Definition max (a b : float) : float :=
  if is_nan a || is_nan b then nan
  else if a <? b then b
  else if b <? a then a
  else if is_zero a then a + b
  else a.

Definition min (a b : float) : float :=
  if is_nan a || is_nan b then nan
  else if a <? b then a
  else if b <? a then b
  else if is_zero a then - ((- a) + (- b))
  else a.

(** [x >= y] and [x > y]; both are false when an argument is [NaN]. *)
Definition geb (x y : float) : bool := y <=? x.
Definition gtb (x y : float) : bool := y <? x.

(** [Number(x) || d]: a zero of either sign and [NaN] are falsy. *)
Definition or_num (x d : float) : float :=
  if is_zero x || is_nan x then d else x.

(** [isFinite(x)]. *)
Definition isFinite (x : float) : bool := is_finite x.

(** The exact value of a finite double. *)
Definition to_Q (x : float) : Q :=
  match FloatOps.Prim2SF x with
  | SpecFloat.S754_finite s m e =>
      (inject_Z (if s then Z.neg m else Z.pos m) * Qpower 2 e)%Q
  | _ => 0%Q
  end.

(** [Number(x.toFixed(2))] for 0 <= x < 2^46, which covers every footing
    dimension of the search: [toFixed] takes the integer n nearest to the
    exact value of 100 x, the larger one on a tie, and prints n / 100 with
    two decimals; [Number] reads that decimal back as the nearest double,
    which is the quotient of the doubles n and 100. *)
Definition toFixed2 (x : float) : float :=
  let n := Qfloor (to_Q x * 100 + (1 # 2))%Q in
  of_uint63 (Uint63.of_Z n) / 100.

End F64.

(** ** Footing stability in binary64 (lines 1142-1286)

    [evalFoundation] once more, with every operation rounded as the
    program rounds it. *)
Module Foundation64.
Import PrimFloat.
Open Scope float_scope.

Inductive FootShape : Type := RECT | L.

Inductive ContactMode : Type := full | partial | none.

Inductive OptMode : Type := BD | VOL.

(** Passive earth pressure coefficient [PASSIVE_SOIL.Kp]. *)
Definition Kp : float := 3.

(** The variables of the component that [evalFoundation] reads from its
    enclosing scope. *)
Record Env : Type := {
  L_t1 : float;
  L_t2 : float;
  footShape : FootShape;
  concUnitW : float;
  soilUnitW : float;
  coverT : float;
  Wself_perCol : float;
  M : float;
  Fh : float;
  soilQa : float;
  gammaBearing : float;
  Fc : float;
  embedDepth : float;
  etaPassive : float;
  allowUpliftOK : bool;
  reqFS_OT : float;
  reqFS_SL : float;
  mu : float;
  foundationOptMode : OptMode
}.

(** The fields of the returned object that the search and the statements
    below read, with the two locals [contactMode] and [b_eff]. *)
Record Result : Type := {
  ok : bool;
  N : float;
  e : float;
  sigma_max : float;
  sigma_min : float;
  noUplift : bool;
  qa_allow_final : float;
  bearingOK : bool;
  FS_OT : float;
  OT_OK : bool;
  FS_SL : float;
  SL_OK : bool;
  volume : float;
  contactMode : ContactMode;
  b_eff : float
}.

Definition evalFoundation (env : Env) (B D H : float) : Result :=
  let t1 := F64.max 0 (F64.or_num (L_t1 env) 0) in
  let t2 := F64.max 0 (F64.or_num (L_t2 env) 0) in
  let A :=
    match footShape env with
    | L => F64.max (B * t1 + D * t2 - t1 * t2) 1e-9
    | RECT => F64.max (B * D) 1e-9
    end in
  let A_weight :=
    match footShape env with
    | L => F64.max (B * t1 + D * t2 - t1 * t2) 1e-9
    | RECT => F64.max (B * D) 1e-9
    end in
  let Wconc := concUnitW env * 1000 * (A_weight * H) in
  let Wcover := soilUnitW env * 1000 * (A_weight * coverT env) in
  let N := Wconc + Wcover + Wself_perCol env in
  let e := abs (M env) / F64.max N 1e-9 in
  let e_lim := B / 6 in
  let contactMode :=
    if e <=? e_lim then full
    else if e <? B / 2 then partial
    else none in
  let b_eff :=
    match contactMode with
    | full => B
    | partial => F64.max (3 * (B / 2 - e)) 0
    | none => 0
    end in
  let A_full := F64.max (B * D) 1e-9 in
  let A_contact := F64.max (b_eff * D) 1e-9 in
  let sigma_avg_full := N / A_full in
  let sigma_max :=
    match contactMode with
    | full => sigma_avg_full * (1 + (6 * e) / F64.max B 1e-9)
    | partial => (2 * N) / A_contact
    | none => infinity
    end in
  let sigma_min :=
    match contactMode with
    | full => sigma_avg_full * (1 - (6 * e) / F64.max B 1e-9)
    | partial => 0
    | none => 0
    end in
  let noUplift :=
    match contactMode with
    | full => F64.geb sigma_min 0
    | partial => false
    | none => false
    end in
  let qa_allow_soil := soilQa env / F64.max (gammaBearing env) 1e-9 in
  let qa_allow_conc := 0.25 * Fc env * 1000 in
  let qa_allow_final := F64.min qa_allow_soil qa_allow_conc in
  let bearingOK :=
    if F64.isFinite sigma_max
    then sigma_max / 1000 <=? qa_allow_final
    else false in
  let z := F64.max 0 (F64.or_num (embedDepth env) 0) in
  let gammaN := soilUnitW env * 1000 in
  let Pp_raw := if F64.gtb z 0 then 0.5 * Kp * gammaN * D * z * z else 0 in
  let Pp := Pp_raw * etaPassive env in
  let M_passive := if F64.gtb z 0 then Pp * (z / 3) else 0 in
  let leverArm_OT := F64.max (B / 2 - e) 0 in
  let MrN := N * leverArm_OT in
  let Mr := MrN + M_passive in
  let FS_OT := Mr / F64.max (abs (M env)) 1e-9 in
  let OT_OK :=
    if allowUpliftOK env
    then F64.geb FS_OT (reqFS_OT env)
    else F64.geb FS_OT (reqFS_OT env) && noUplift in
  let contactRatio :=
    if F64.gtb B 0 then F64.min (F64.max (b_eff / B) 0) 1 else 0 in
  let N_eff := N * contactRatio in
  let R_slide := mu env * N_eff + Pp in
  let FS_SL := R_slide / F64.max (Fh env) 1e-9 in
  let SL_OK := F64.geb FS_SL (reqFS_SL env) in
  let ok := bearingOK && OT_OK && SL_OK in
  {| ok := ok;
     N := N;
     e := e;
     sigma_max := sigma_max;
     sigma_min := sigma_min;
     noUplift := noUplift;
     qa_allow_final := qa_allow_final;
     bearingOK := bearingOK;
     FS_OT := FS_OT;
     OT_OK := OT_OK;
     FS_SL := FS_SL;
     SL_OK := SL_OK;
     volume := A * H;
     contactMode := contactMode;
     b_eff := b_eff |}.

End Foundation64.

(** ** Footing optimiser (lines 2253-2351) *)
Module Optimizer.
Import PrimFloat Foundation64.
Open Scope float_scope.

(** A candidate (B, D, H). *)
Definition Cand : Type := (float * float * float)%type.

Definition cB (c : Cand) : float := fst (fst c).
Definition cD (c : Cand) : float := snd (fst c).
Definition cH (c : Cand) : float := snd c.

Definition eval (env : Env) (c : Cand) : Result :=
  evalFoundation env (cB c) (cD c) (cH c).

(** The values taken by the loop variable of
    [for (let x = lo; x <= hi; x += step)]; [fuel] bounds the number of
    iterations. *)
Fixpoint for_range (fuel : nat) (x hi step : float) : list float :=
  match fuel with
  | O => []
  | S fuel' =>
      if x <=? hi
      then x :: for_range fuel' (x + step) hi step
      else []
  end.

Definition Bs : list float := for_range 64 0.6 2.0 0.05.
Definition Ds : list float := for_range 64 0.6 2.0 0.05.
Definition Hs : list float := for_range 64 0.4 2.0 0.05.

(** The triple-nested loop, threading a state [S] through the body. *)
Definition grid_fold {S : Type} (body : S -> Cand -> S) (s0 : S) : S :=
  fold_left
    (fun sB B =>
       fold_left
         (fun sD D => fold_left (fun sH H => body sH (B, D, H)) Hs sD)
         Ds sB)
    Bs s0.

(** The candidates in enumeration order. *)
Definition grid : list Cand :=
  flat_map (fun B => flat_map (fun D => map (fun H => (B, D, H)) Hs) Ds) Bs.

Definition DEFAULT_FOOT : Cand := (0.8, 0.8, 0.8).

(** State of the first search: [found], [bestScore], [bestB/D/H]. *)
Record Best : Type := {
  found : bool;
  bestScore : float;
  best : Cand
}.

(** The objective of a candidate that passed. *)
Definition score (env : Env) (c : Cand) : float :=
  match foundationOptMode env with
  | VOL => volume (eval env c)
  | BD => cB c * 100 + cD c * 10 + cH c
  end.

Definition init_best (env : Env) : Best :=
  let bestScore :=
    match foundationOptMode env with
    | VOL => cB DEFAULT_FOOT * cD DEFAULT_FOOT * cH DEFAULT_FOOT
    | BD => cB DEFAULT_FOOT * 100 + cD DEFAULT_FOOT * 10 + cH DEFAULT_FOOT
    end in
  let r0 := eval env DEFAULT_FOOT in
  {| found := if ok r0 then true else false;
     bestScore := bestScore;
     best := DEFAULT_FOOT |}.

Definition pass_step (env : Env) (st : Best) (c : Cand) : Best :=
  let r := eval env c in
  if negb (ok r) then st
  else
    let score := score env c in
    if negb (found st) || (score <? bestScore st)
    then {| found := true; bestScore := score; best := c |}
    else st.

(** The rescue ranking. *)
Record Near : Type := {
  nearC : Cand;
  nearR : Result;
  scoreNear : float
}.

Definition sizePenalty (env : Env) (c : Cand) : float :=
  match foundationOptMode env with
  | VOL => cB c * cD c * cH c
  | BD => cB c * 100 + cD c * 10 + cH c
  end.

Definition rateMin (env : Env) (r : Result) : float :=
  let rateOT := FS_OT r / F64.max (reqFS_OT env) 1e-9 in
  let rateSL := FS_SL r / F64.max (reqFS_SL env) 1e-9 in
  let rateBE := (qa_allow_final r * 1000) / F64.max (sigma_max r) 1e-9 in
  F64.min (F64.min rateOT rateSL) rateBE.

Definition near_score (env : Env) (c : Cand) : float :=
  rateMin env (eval env c) * 100000 - sizePenalty env c.

Definition near_step (env : Env) (bestNear : option Near) (c : Cand)
  : option Near :=
  let r := eval env c in
  let scoreNear := near_score env c in
  match bestNear with
  | None => Some {| nearC := c; nearR := r; scoreNear := scoreNear |}
  | Some b =>
      if F64.gtb scoreNear (Optimizer.scoreNear b)
      then Some {| nearC := c; nearR := r; scoreNear := scoreNear |}
      else bestNear
  end.

(** What the search does: adopt the best passing candidate, or adopt the
    best near miss and report it as such, or leave the footing alone. *)
Inductive Outcome : Type :=
| Adopted (c : Cand)
| BestEffort (c : Cand)
| Unchanged.

Definition search (env : Env) : Outcome :=
  let st := grid_fold (pass_step env) (init_best env) in
  if found st then Adopted (best st)
  else
    match grid_fold (near_step env) None with
    | Some b => BestEffort (nearC b)
    | None => Unchanged
    end.

(** Step 4 of [handleAIAutoCalc]: the search runs for a free-standing
    sign only. *)
Definition step4 (signType : string) (env : Env) : Outcome :=
  if String.eqb signType "freestanding" then search env else Unchanged.

(** The values written by [setFootB/D/H]. *)
Definition setFoot (c : Cand) : Cand :=
  (F64.toFixed2 (cB c), F64.toFixed2 (cD c), F64.toFixed2 (cH c)).

Definition footing_after (o : Outcome) (current : Cand) : Cand :=
  match o with
  | Adopted c => setFoot c
  | BestEffort c => setFoot c
  | Unchanged => current
  end.

Definition passes (env : Env) (c : Cand) : bool := ok (eval env c).

End Optimizer.

(** ** Configuration import: the anchor fields (lines 884-897, 1574-1697) *)
Module Config.
Import Anchor.

Definition mkAnchor (n : string) (dia ta va : Q) (e s h : option Q) : AnchorSpec :=
  {| name := n; d := dia; Ta := ta; Va := va; min_e := e; min_s := s; hefRec := h |}.

Definition DEFAULT_ANCHORS : list AnchorSpec :=
  [ mkAnchor "M12 A-BOLT" 12 12000 5000 (Some 18) (Some 36) (Some 150);
    mkAnchor "M16 A-BOLT" 16 22000 9000 (Some 24) (Some 48) (Some 200);
    mkAnchor "M20 A-BOLT" 20 35000 14000 (Some 30) (Some 60) (Some 250);
    mkAnchor "M24 A-BOLT" 24 51000 20000 (Some 36) (Some 72) (Some 300);
    mkAnchor "M30 A-BOLT" 30 75000 30000 (Some 45) (Some 90) (Some 380);
    mkAnchor "M32 A-BOLT" 32 90000 36000 (Some 48) (Some 96) (Some 420) ].

(** The regulated catalogue; [hefRec] is added as [d * 20]. *)
Definition ABR_ANCHORS : list AnchorSpec :=
  map (fun a => mkAnchor (name a) (d a) (Ta a) (Va a) (min_e a) (min_s a)
                         (Some (d a * 20)))
    [ mkAnchor "M16 ABR" 16 36900 21300 None None None;
      mkAnchor "M20 ABR" 20 57600 33200 None None None;
      mkAnchor "M22 ABR" 22 71200 41100 None None None;
      mkAnchor "M24 ABR" 24 83000 47900 None None None;
      mkAnchor "M27 ABR" 27 108000 62400 None None None;
      mkAnchor "M30 ABR" 30 132000 76200 None None None;
      mkAnchor "M33 ABR" 33 163000 94100 None None None;
      mkAnchor "M36 ABR" 36 192000 111000 None None None;
      mkAnchor "M39 ABR" 39 229000 132000 None None None;
      mkAnchor "M42 ABR" 42 263000 152000 None None None;
      mkAnchor "M45 ABR" 45 282000 163000 None None None;
      mkAnchor "M48 ABR" 48 316000 182000 None None None ].

(** The state of the component that the anchor fields of a configuration
    read and write. *)
Record State : Type := {
  signType : string;
  anchors : list AnchorSpec;
  anchor : AnchorSpec;
  anchorEmbed : Q
}.

Definition setSignType (st : State) (v : string) : State :=
  {| signType := v; anchors := anchors st; anchor := anchor st;
     anchorEmbed := anchorEmbed st |}.
Definition setAnchors (st : State) (v : list AnchorSpec) : State :=
  {| signType := signType st; anchors := v; anchor := anchor st;
     anchorEmbed := anchorEmbed st |}.
Definition setAnchor (st : State) (v : AnchorSpec) : State :=
  {| signType := signType st; anchors := anchors st; anchor := v;
     anchorEmbed := anchorEmbed st |}.
Definition setAnchorEmbed (st : State) (v : Q) : State :=
  {| signType := signType st; anchors := anchors st; anchor := anchor st;
     anchorEmbed := v |}.

(** The fields of an imported object that matter here; [None] is a field
    that is absent or fails its type test. *)
Record Cfg : Type := {
  cfg_signType : option string;
  cfg_anchors : option (list AnchorSpec);
  cfg_anchorName : option string;
  cfg_anchorEmbed : option Q
}.

(** [list.find(a => a.name === n) || list[0]]. *)
Definition find_or_first (n : string) (l : list AnchorSpec) : option AnchorSpec :=
  match find (fun a => String.eqb (name a) n) l with
  | Some a => Some a
  | None => hd_error l
  end.

Definition isFreestanding (s : string) : bool := String.eqb s "freestanding".

(** [applyConfig].  The function reads [signType], [anchors] and [anchor]
    from the render in which it was created ([st]); each setter replaces
    the pending value, so the last call for a field wins. *)
Definition applyConfig (st : State) (cfg : Cfg) : State :=
  let signTypeFromCfg :=
    match cfg_signType cfg with
    | Some s => s
    | None => signType st
    end in
  let s1 :=
    match cfg_signType cfg with
    | Some s => setSignType st s
    | None => st
    end in
  let s2 :=
    match cfg_anchors cfg with
    | Some (a :: l) => setAnchors s1 (a :: l)
    | _ => s1
    end in
  let s3 :=
    match cfg_anchorName cfg with
    | Some n =>
        let list :=
          if isFreestanding signTypeFromCfg then ABR_ANCHORS
          else match cfg_anchors cfg with
               | Some l => l
               | None => anchors st
               end in
        match find_or_first n list with
        | Some pick =>
            let minHef :=
              if isFreestanding signTypeFromCfg
              then d pick * 20
              else hefRec_or pick (d pick * 10) in
            setAnchorEmbed (setAnchor s2 pick) minHef
        | None => s2
        end
    | None => s2
    end in
  match cfg_anchorEmbed cfg with
  | Some v =>
      let minHef :=
        if isFreestanding signTypeFromCfg
        then JS.or_num (d (anchor st)) 27 * 20
        else hefRec_or (anchor st) (JS.or_num (d (anchor st)) 16 * 10) in
      setAnchorEmbed s3 (Qmax minHef v)
  | None => s3
  end.

Definition anchorsForUI (st : State) : list AnchorSpec :=
  if isFreestanding (signType st) then ABR_ANCHORS else anchors st.

(** The effect with dependencies [signType, anchors] (lines 884-897). *)
Definition syncAnchor (st : State) : State :=
  match anchorsForUI st with
  | [] => st
  | first :: _ =>
      let next :=
        match find (fun a => String.eqb (name a) (name (anchor st)))
                   (anchorsForUI st) with
        | Some a => a
        | None => first
        end in
      let st1 :=
        if negb (String.eqb (name next) (name (anchor st)))
        then setAnchor st next
        else st in
      let minHef :=
        if isFreestanding (signType st)
        then d next * 20
        else hefRec_or next (d next * 10) in
      setAnchorEmbed st1 (Qmax (JS.or_num (anchorEmbed st1) 0) minHef)
  end.

(** The effect runs after the import when one of its dependencies changed:
    the sign type differs, or [setAnchors] stored the array of the file. *)
Definition depsChanged (st : State) (cfg : Cfg) (st' : State) : bool :=
  negb (String.eqb (signType st) (signType st'))
  || match cfg_anchors cfg with
     | Some (_ :: _) => true
     | _ => false
     end.

Definition importConfig (st : State) (cfg : Cfg) : State :=
  let st' := applyConfig st cfg in
  if depsChanged st cfg st' then syncAnchor st' else st'.

(** The component as first rendered: free-standing, M27 ABR, 540 mm. *)
Definition initialState : State :=
  {| signType := "freestanding";
     anchors := DEFAULT_ANCHORS;
     anchor := mkAnchor "M27 ABR" 27 108000 62400 None None (Some (27 * 20));
     anchorEmbed := 27 * 20 |}.

(** A file that selects a larger anchor and carries a short embedment. *)
Definition cfg_short : Cfg :=
  {| cfg_signType := None;
     cfg_anchors := None;
     cfg_anchorName := Some "M36 ABR"%string;
     cfg_anchorEmbed := Some 100 |}.

End Config.

(** ** Concrete inputs used below *)
Module Scenario.
Import Foundation.

(** A footing whose vertical load is positive but below the floor 1e-9
    that guards the division in the eccentricity. *)
Definition env_tiny : Env := {|
  L_t1 := 0.2; L_t2 := 0.2; footShape := RECT;
  concUnitW := 0; soilUnitW := 0; coverT := 0.3;
  Wself_perCol := 5e-10;
  M := 1e-10; Fh := 1; soilQa := 150; gammaBearing := 1; Fc := 21;
  embedDepth := 0; etaPassive := 0.5; allowUpliftOK := false;
  reqFS_OT := 1.5; reqFS_SL := 1.5; mu := 0.5; foundationOptMode := BD |}.

(** A load of 1000 N whose eccentricity is 1e-10 m short of B / 2 on a
    footing of 1 m by 1 m. *)
Definition env_edge : Env := {|
  L_t1 := 0.2; L_t2 := 0.2; footShape := RECT;
  concUnitW := 0; soilUnitW := 0; coverT := 0.3;
  Wself_perCol := 1000;
  M := 499.9999999; Fh := 100; soilQa := 150; gammaBearing := 1; Fc := 21;
  embedDepth := 0; etaPassive := 0.5; allowUpliftOK := false;
  reqFS_OT := 1.5; reqFS_SL := 1.5; mu := 0.5; foundationOptMode := BD |}.

(** The initial inputs of the application with a light sign and an
    embedment of 0.7 m. *)
Definition env_light : Env := {|
  L_t1 := 0.2; L_t2 := 0.2; footShape := RECT;
  concUnitW := 24; soilUnitW := 18; coverT := 0.3;
  Wself_perCol := 2450;
  M := 1000; Fh := 500; soilQa := 150; gammaBearing := 1; Fc := 21;
  embedDepth := 0.7; etaPassive := 0.5; allowUpliftOK := false;
  reqFS_OT := 1.5; reqFS_SL := 1.5; mu := 0.5; foundationOptMode := BD |}.

(** The same sign with a concrete unit weight of -10 kN/m3, a self weight
    of 10000 N and a moment of 100 N m: the vertical load falls as the
    footing widens. *)
Definition env_negative : Env := {|
  L_t1 := 0.2; L_t2 := 0.2; footShape := RECT;
  concUnitW := -10; soilUnitW := 18; coverT := 0.3;
  Wself_perCol := 10000;
  M := 100; Fh := 500; soilQa := 150; gammaBearing := 1; Fc := 21;
  embedDepth := 0.7; etaPassive := 0.5; allowUpliftOK := false;
  reqFS_OT := 1.5; reqFS_SL := 1.5; mu := 0.5; foundationOptMode := BD |}.

End Scenario.

(** Inputs of the footing search, in binary64. *)
Module Scenario64.
Import PrimFloat Foundation64.
Open Scope float_scope.

(** The initial inputs of the application (panel of 250 kg on one column,
    centre of area at 3.5 m, no embedment) with a design force of 20000 N
    entered by hand, hence a moment of 20000 x 3.5 = 70000 N m. *)
Definition env_upper : Env := {|
  L_t1 := 0.2; L_t2 := 0.2; footShape := RECT;
  concUnitW := 24; soilUnitW := 18; coverT := 0.3;
  Wself_perCol := 250 * 9.8 / 1;
  M := 20000 * 3.5; Fh := 20000; soilQa := 150; gammaBearing := 1; Fc := 21;
  embedDepth := 0; etaPassive := 0.5; allowUpliftOK := false;
  reqFS_OT := 1.5; reqFS_SL := 1.5; mu := 0.5; foundationOptMode := BD |}.

(** A footing alone: no panel weight, no soil cover, no embedment, a
    design force of 2304 N acting 0.1 m above the base. *)
Definition env_round : Env := {|
  L_t1 := 0.2; L_t2 := 0.2; footShape := RECT;
  concUnitW := 24; soilUnitW := 18; coverT := 0;
  Wself_perCol := 0;
  M := 2304 * 0.1; Fh := 2304; soilQa := 150; gammaBearing := 1; Fc := 21;
  embedDepth := 0; etaPassive := 0.5; allowUpliftOK := false;
  reqFS_OT := 1.5; reqFS_SL := 1.5; mu := 0.5; foundationOptMode := BD |}.

End Scenario64.

(** ** Base-plate stock thickness (lines 128-133) *)
Module Plate.

Definition PLATE_T_OPTIONS : list Q := [16; 19; 22; 25; 28; 32; 36].

(** [for (const t of PLATE_T_OPTIONS) if (t >= tReq) return t;] and, past
    the loop, the last option. *)
Definition snapPlateT (tReq : Q) : Q :=
  match find (fun t => JS.geb t tReq) PLATE_T_OPTIONS with
  | Some t => t
  | None => nth (List.length PLATE_T_OPTIONS - 1) PLATE_T_OPTIONS 0
  end.

End Plate.

(** ** Design force and moment per column (lines 76-99, 1023-1064, 1288) *)
Module Load.

Definition G : Q := 9.8.

(** [windPressure(V, params)], the design pressure of the what-if curve. *)
Definition windPressure (V : Q) (params : Wind.Inputs) : Q :=
  let q0v := Wind.wind_q0 V in
  let Kz_eff := match Wind.cfMode params with
                | Wind.CF_INCLUDES_ALL => 1 | Wind.SHAPE_ONLY => Wind.windKz params end in
  let Gf_eff := match Wind.cfMode params with
                | Wind.CF_INCLUDES_ALL => 1 | Wind.SHAPE_ONLY => Wind.windGf params end in
  let Iw_eff := match Wind.cfMode params with
                | Wind.CF_INCLUDES_ALL => 1 | Wind.SHAPE_ONLY => Wind.windIw params end in
  let Kd_eff := match Wind.cfMode params with
                | Wind.CF_INCLUDES_ALL => 1 | Wind.SHAPE_ONLY => Wind.windKd params end in
  let Kt_eff := match Wind.cfMode params with
                | Wind.CF_INCLUDES_ALL => 1 | Wind.SHAPE_ONLY => Wind.windKt params end in
  q0v * Kz_eff * Gf_eff * Iw_eff * Kd_eff * Kt_eff.

Record Inputs : Type := {
  wind : Wind.Inputs;
  signType : string;
  panelKg : Q;
  seismicC0 : Q;
  postQty : Q;
  hasInterPostConnection : bool;
  FhInput : Q;
  forceUnit : string;
  cgHeight : Q
}.

Definition Wself_total (i : Inputs) : Q := panelKg i * G.

Definition nCol_raw (i : Inputs) : Q :=
  Qmax 1 (JS.floor (JS.or_num (postQty i) 1)).

Definition nCol (i : Inputs) : Q :=
  if hasInterPostConnection i then nCol_raw i else 1.

Definition Fh_auto_total (i : Inputs) : Q :=
  if String.eqb (signType i) "freestanding"
  then Qmax (Wind.Fw_total (wind i)) (Wself_total i * seismicC0 i)
  else Wind.Fw_total (wind i) + Wself_total i * seismicC0 i.

Definition Fh_manual_total_N (i : Inputs) : Q :=
  let v := Qmax 0 (FhInput i) in
  if String.eqb (forceUnit i) "kgf" then v * G else v.

Definition Fh_total (i : Inputs) : Q :=
  if JS.gtb (Fh_manual_total_N i) 0 then Fh_manual_total_N i
  else Fh_auto_total i.

Definition Fh (i : Inputs) : Q := Fh_total i / nCol i.

Definition M (i : Inputs) : Q :=
  if String.eqb (signType i) "freestanding" then Fh i * cgHeight i
  else if String.eqb (signType i) "projecting" then Fh i * 0.8
  else Fh i * 0.1.

Definition Wself_perCol (i : Inputs) : Q := Wself_total i / nCol i.

End Load.

(** ** Automatic anchor selection (lines 2165-2232) *)
Module AutoAnchor.
Import Anchor.

(** [[...l].sort((a, b) => a.Ta - b.Ta)]: the stable ascending order. *)
Fixpoint insert_by_Ta (a : AnchorSpec) (l : list AnchorSpec) : list AnchorSpec :=
  match l with
  | [] => [a]
  | b :: l' =>
      if JS.ltb (Ta a) (Ta b) then a :: b :: l' else b :: insert_by_Ta a l'
  end.

Definition sort_by_Ta (l : list AnchorSpec) : list AnchorSpec :=
  fold_left (fun acc a => insert_by_Ta a acc) l [].

(** [a.min_e ?? Math.round(1.5 * d)] and [a.min_s ?? Math.round(3 * d)]. *)
Definition round (x : Q) : Q := inject_Z (Qfloor (x + (1 # 2))).

Definition minEdge (a : AnchorSpec) : Q :=
  match min_e a with
  | Some v => v
  | None => round (1.5 * d a)
  end.

Definition minSpace (a : AnchorSpec) : Q :=
  match min_s a with
  | Some v => v
  | None => round (3 * d a)
  end.

(** The inputs of the selection.  [conc Fc hef] stands for the product
    [k * sqrt(Fc) * hef^1.5 * phi * psiEdge * psiCrack], which is not a
    rational function; everything below holds whatever its values. *)
Record Inputs : Type := {
  conc : Q -> Q -> Q;
  signType : string;
  anchorsForUI : list AnchorSpec;
  anchor : AnchorSpec;
  anchorQty : Q;
  anchorEmbed : Q;
  edge1 : Q;
  edge2 : Q;
  spacing : Q;
  M : Q;
  Fh : Q;
  anchorGauge : Q;
  anchorPitch : Q;
  Fc : Q
}.

(** [Ta_conc] for an embedment [hef] (lines 1104-1115 and 2192-2200). *)
Definition Ta_conc (i : Inputs) (hef : Q) : Q :=
  let FcNum := JS.or_num (Fc i) 0 in
  if JS.gtb FcNum 0 && JS.gtb hef 0 then conc i FcNum hef else 0.

Definition edgesOK (i : Inputs) (ac : AnchorSpec) : bool :=
  let edge1OK_c := JS.geb (edge1 i) (minEdge ac) in
  let edge2OK_c :=
    if String.eqb (signType i) "projecting" then true
    else JS.geb (edge2 i) (minEdge ac) in
  let spacingOK_c := JS.geb (spacing i) (minSpace ac) in
  edge1OK_c && edge2OK_c && spacingOK_c.

Definition hef_try (i : Inputs) (ac : AnchorSpec) : Q :=
  if String.eqb (signType i) "freestanding"
  then d ac * 20
  else hefRec_or ac (d ac * 10).

(** The ratio of one candidate; it does not depend on the quantity. *)
Definition etaA (i : Inputs) (ac : AnchorSpec) (q_local : Q) : JS.num :=
  let Tmax_c := Tmax (M i) (anchorGauge i) (anchorPitch i) in
  let Ta_eff_c := Qmin (Ta ac) (Ta_conc i (hef_try i ac)) in
  JS.add (if JS.gtb Ta_eff_c 0 then JS.Fin (Tmax_c / Ta_eff_c) else JS.Inf)
         (if JS.gtb (Va ac) 0 then JS.Fin (V_c (Fh i) q_local / Va ac)
          else JS.Fin 0).

Definition qtyCandidates : list Q := [4; 6; 8; 10].

(** The inner loop: the first quantity whose ratio is below 1. *)
Definition pick_qty (i : Inputs) (ac : AnchorSpec) : option Q :=
  find (fun q_local => JS.num_ltb (etaA i ac q_local) 1) qtyCandidates.

Record Pick : Type := {
  bestAnchor : AnchorSpec;
  bestQty : Q;
  bestEmbed : Q;
  foundAnchorOK : bool
}.

(** The outer loop over the sorted candidates. *)
Fixpoint select (i : Inputs) (cands : list AnchorSpec) (dflt : Pick) : Pick :=
  match cands with
  | [] => dflt
  | ac :: rest =>
      if negb (edgesOK i ac) then select i rest dflt
      else
        match pick_qty i ac with
        | Some q =>
            {| bestAnchor := ac; bestQty := q; bestEmbed := hef_try i ac;
               foundAnchorOK := true |}
        | None => select i rest dflt
        end
  end.

(** The state written by step 2: [setAnchor], [setAnchorQty],
    [setAnchorEmbed]. *)
Record After : Type := {
  anchor' : AnchorSpec;
  anchorQty' : Q;
  anchorEmbed' : Q
}.

Definition autoAnchor (i : Inputs) : After :=
  let p :=
    select i (sort_by_Ta (anchorsForUI i))
      {| bestAnchor := anchor i; bestQty := anchorQty i;
         bestEmbed := anchorEmbed i; foundAnchorOK := false |} in
  let minHefFinal :=
    if String.eqb (signType i) "freestanding"
    then d (bestAnchor p) * 20
    else hefRec_or (bestAnchor p) (d (bestAnchor p) * 10) in
  {| anchor' := bestAnchor p;
     anchorQty' := bestQty p;
     anchorEmbed' := Qmax (bestEmbed p) minHefFinal |}.

(** The locals [bestAnchor], [bestQty], [bestEmbed] and [foundAnchorOK]
    when the two loops of step 2 are left: the pick inside [autoAnchor]. *)
Definition autoPick (i : Inputs) : Pick :=
  select i (sort_by_Ta (anchorsForUI i))
    {| bestAnchor := anchor i; bestQty := anchorQty i;
       bestEmbed := anchorEmbed i; foundAnchorOK := false |}.

(** The order of the sort, and what makes a candidate acceptable. *)
Definition le_Ta (a b : AnchorSpec) : Prop := Ta a <= Ta b.

Definition acceptable (i : Inputs) (ac : AnchorSpec) : bool :=
  edgesOK i ac && JS.num_ltb (etaA i ac 4) 1.

(** The anchor ratio of the verification (lines 1084-1124) for a state. *)
Definition verify_eta (i : Inputs) (a : AnchorSpec) (qty embed : Q) : JS.num :=
  let hef := JS.or_num embed 0 in
  etaAnchorLinear (Qmin (Ta a) (Ta_conc i hef)) (Va a)
    (Tmax (M i) (anchorGauge i) (anchorPitch i))
    (V_anchor (Fh i) qty).

End AutoAnchor.

(** ** Catalogue import and the remaining clamps of the configuration
    import (lines 1408-1456, 1615, 1653, 1664-1666) *)
Module Catalog.
Import Anchor Config.

(** One element of the parsed array: [None] for a field that is absent or
    fails its type test. *)
Record RawRow : Type := {
  r_name : option string;
  r_d : option Q;
  r_Ta : option Q;
  r_Va : option Q;
  r_min_e : option Q;
  r_min_s : option Q;
  r_hefRec : option Q
}.

(** The row pushed for an element, if any; [None] as element is a value
    that is not an object. *)
Definition row_of (o : option RawRow) : option AnchorSpec :=
  match o with
  | Some r =>
      match r_name r, r_d r, r_Ta r, r_Va r with
      | Some n, Some dia, Some ta, Some va =>
          Some {| name := n; d := dia; Ta := ta; Va := va;
                  min_e := r_min_e r; min_s := r_min_s r;
                  hefRec := r_hefRec r |}
      | _, _, _, _ => None
      end
  | None => None
  end.

Fixpoint rows_of (json : list (option RawRow)) : list AnchorSpec :=
  match json with
  | [] => []
  | o :: rest =>
      match row_of o with
      | Some a => a :: rows_of rest
      | None => rows_of rest
      end
  end.

Inductive ImportError : Type := NotAnArray | NoValidRow.

(** [handleImportAnchors]: the new state, or the error that is caught and
    shown; [json = None] is a parsed value that is not an array. *)
Definition handleImportAnchors (st : State) (json : option (list (option RawRow)))
  : State + ImportError :=
  match json with
  | None => inr NotAnArray
  | Some l =>
      match rows_of l with
      | [] => inr NoValidRow
      | r0 :: rest =>
          let st1 := setAnchors st (r0 :: rest) in
          if negb (isFreestanding (signType st))
          then inl (setAnchorEmbed (setAnchor st1 r0) (hefRec_or r0 (d r0 * 10)))
          else inl st1
      end
  end.

(** The import followed by the effect on [signType, anchors]. *)
Definition importAnchors (st : State) (json : option (list (option RawRow)))
  : State + ImportError :=
  match handleImportAnchors st json with
  | inl st' => inl (syncAnchor st')
  | inr err => inr err
  end.

(** The values stored by [applyConfig] for three clamped fields, when the
    field is a finite number. *)
Definition cfg_etaPassive (v : Q) : Q := Qmin (Qmax v 0.1) 1.0.
Definition cfg_postQty (v : Q) : Q := Qmax 1 (JS.floor v).
Definition cfg_plateT (v : Q) : Q := Plate.snapPlateT v.

End Catalog.

(** ** Variations of the footing inputs *)
Module Variation.
Import Foundation.

Definition with_allowUplift (env : Env) (b : bool) : Env := {|
  L_t1 := L_t1 env; L_t2 := L_t2 env; footShape := footShape env;
  concUnitW := concUnitW env; soilUnitW := soilUnitW env;
  coverT := coverT env; Wself_perCol := Wself_perCol env;
  M := M env; Fh := Fh env; soilQa := soilQa env;
  gammaBearing := gammaBearing env; Fc := Fc env;
  embedDepth := embedDepth env; etaPassive := etaPassive env;
  allowUpliftOK := b;
  reqFS_OT := reqFS_OT env; reqFS_SL := reqFS_SL env; mu := mu env;
  foundationOptMode := foundationOptMode env |}.

Definition with_embedDepth (env : Env) (zv : Q) : Env := {|
  L_t1 := L_t1 env; L_t2 := L_t2 env; footShape := footShape env;
  concUnitW := concUnitW env; soilUnitW := soilUnitW env;
  coverT := coverT env; Wself_perCol := Wself_perCol env;
  M := M env; Fh := Fh env; soilQa := soilQa env;
  gammaBearing := gammaBearing env; Fc := Fc env;
  embedDepth := zv; etaPassive := etaPassive env;
  allowUpliftOK := allowUpliftOK env;
  reqFS_OT := reqFS_OT env; reqFS_SL := reqFS_SL env; mu := mu env;
  foundationOptMode := foundationOptMode env |}.

End Variation.

(** ** Further concrete inputs *)
Module Scenario2.
Import Foundation.


(** Inputs of the automatic anchor selection for the initial free-standing
    sign, with a concrete-side capacity of 50 kN. *)
Definition auto_inputs : AutoAnchor.Inputs := {|
  AutoAnchor.conc := fun _ _ => 50000;
  AutoAnchor.signType := "freestanding";
  AutoAnchor.anchorsForUI := Config.ABR_ANCHORS;
  AutoAnchor.anchor := Config.anchor Config.initialState;
  AutoAnchor.anchorQty := 8;
  AutoAnchor.anchorEmbed := 540;
  AutoAnchor.edge1 := 50;
  AutoAnchor.edge2 := 50;
  AutoAnchor.spacing := 120;
  AutoAnchor.M := 1000;
  AutoAnchor.Fh := 500;
  AutoAnchor.anchorGauge := 200;
  AutoAnchor.anchorPitch := 160;
  AutoAnchor.Fc := 21
|}.

(** The same inputs with the anchors 10 mm from the edge: no catalogue
    anchor meets its edge distance. *)
Definition auto_inputs_tight : AutoAnchor.Inputs := {|
  AutoAnchor.conc := fun _ _ => 50000;
  AutoAnchor.signType := "freestanding";
  AutoAnchor.anchorsForUI := Config.ABR_ANCHORS;
  AutoAnchor.anchor := Config.anchor Config.initialState;
  AutoAnchor.anchorQty := 8;
  AutoAnchor.anchorEmbed := 540;
  AutoAnchor.edge1 := 10;
  AutoAnchor.edge2 := 50;
  AutoAnchor.spacing := 120;
  AutoAnchor.M := 1000;
  AutoAnchor.Fh := 500;
  AutoAnchor.anchorGauge := 200;
  AutoAnchor.anchorPitch := 160;
  AutoAnchor.Fc := 21
|}.

(** A wall sign with the general catalogue, and a file of three elements of
    which the second is not an object and the third lacks its diameter. *)
Definition wall_state : Config.State := {|
  Config.signType := "wall";
  Config.anchors := Config.DEFAULT_ANCHORS;
  Config.anchor := Config.mkAnchor "M16 A-BOLT" 16 22000 9000
                     (Some 24) (Some 48) (Some 200);
  Config.anchorEmbed := 200
|}.

Definition anchors_file : list (option Catalog.RawRow) :=
  [ Some {| Catalog.r_name := Some "HX-20"%string; Catalog.r_d := Some 20;
            Catalog.r_Ta := Some 30000; Catalog.r_Va := Some 12000;
            Catalog.r_min_e := None; Catalog.r_min_s := None;
            Catalog.r_hefRec := None |};
    None;
    Some {| Catalog.r_name := Some "HX-24"%string; Catalog.r_d := None;
            Catalog.r_Ta := Some 40000; Catalog.r_Va := Some 16000;
            Catalog.r_min_e := None; Catalog.r_min_s := None;
            Catalog.r_hefRec := None |} ].


End Scenario2.

(** ** Proof automation *)

(** Division by a numeral is turned into a product before [lra] runs. *)
Ltac inv_consts :=
unfold Qdiv in *;
repeat match goal with
       | |- context [ / (?n # ?m) ] =>
           let v := eval vm_compute in (/ (n # m)) in
           progress change (/ (n # m)) with v
       | H : context [ / (?n # ?m) ] |- _ =>
           let v := eval vm_compute in (/ (n # m)) in
           progress change (/ (n # m)) with v in H
       end.

Ltac qlra := inv_consts; lra.

(** Name every innermost [Qmax], [Qmin] and [Qabs] of the goal, keep its
  defining cases, and split on them. *)
Ltac name_minmax :=
repeat match goal with
       | |- context [Qmax ?a ?b] =>
           lazymatch a with
           | context [Qmax _ _] => fail
           | context [Qmin _ _] => fail
           | context [Qabs _] => fail
           | _ => idtac end;
           lazymatch b with
           | context [Qmax _ _] => fail
           | context [Qmin _ _] => fail
           | context [Qabs _] => fail
           | _ => idtac end;
           let m := fresh "m" in
           pose proof (Q.max_spec a b);
           set (m := Qmax a b) in *; clearbody m
       | |- context [Qmin ?a ?b] =>
           lazymatch a with
           | context [Qmax _ _] => fail
           | context [Qmin _ _] => fail
           | context [Qabs _] => fail
           | _ => idtac end;
           lazymatch b with
           | context [Qmax _ _] => fail
           | context [Qmin _ _] => fail
           | context [Qabs _] => fail
           | _ => idtac end;
           let m := fresh "m" in
           pose proof (Q.min_spec a b);
           set (m := Qmin a b) in *; clearbody m
       | |- context [Qabs ?a] =>
           lazymatch a with
           | context [Qmax _ _] => fail
           | context [Qmin _ _] => fail
           | context [Qabs _] => fail
           | _ => idtac end;
           let m := fresh "m" in
           assert ((0 <= a /\ Qabs a == a) \/ (a <= 0 /\ Qabs a == - a))
             by (apply Qabs_case; intro; [left | right]; split;
                 first [assumption | reflexivity]);
           set (m := Qabs a) in *; clearbody m
       end.

Ltac split_cases :=
repeat match goal with
       | H : _ \/ _ |- _ => destruct H
       | H : _ /\ _ |- _ => destruct H
       end.

Ltac minmax_lra := name_minmax; split_cases; qlra.

(** Case analysis for an order property of three doubles given by sign,
    mantissa and exponent. *)
Ltac sf_cases x y z :=
  let mx := fresh "mx" in let my := fresh "my" in let mz := fresh "mz" in
  let ex := fresh "ex" in let ey := fresh "ey" in let ez := fresh "ez" in
  destruct x as [?|?| |? mx ex], y as [?|?| |? my ey], z as [?|?| |? mz ez];
  try discriminate; try reflexivity;
  repeat match goal with s : bool |- _ => destruct s end;
  try discriminate; try reflexivity;
  fold (Pos.compare mx my); fold (Pos.compare my mz); fold (Pos.compare mx mz);
  destruct (Z.compare_spec ex ey); destruct (Z.compare_spec ey ez);
  destruct (Z.compare_spec ex ez); try discriminate; try reflexivity; try lia;
  destruct (Pos.compare_spec mx my); destruct (Pos.compare_spec my mz);
  destruct (Pos.compare_spec mx mz); simpl; try discriminate;
  try reflexivity; try lia.
(* ================================================================== *)
(** * Part II.  Properties *)
(* ================================================================== *)


(** ** Comparisons *)

Section Comparisons.

Lemma ltb_true (x y : Q) : JS.ltb x y = true <-> x < y.
Proof.
  unfold JS.ltb. rewrite negb_true_iff.
  split; intro Hxy.
  - apply Qnot_le_lt. intro Hle.
    apply Qle_bool_iff in Hle. congruence.
  - destruct (Qle_bool y x) eqn:E; [|reflexivity].
    apply Qle_bool_iff in E. exfalso. apply (Qlt_not_le _ _ Hxy E).
Qed.

Lemma ltb_false (x y : Q) : JS.ltb x y = false <-> y <= x.
Proof.
  unfold JS.ltb. rewrite negb_false_iff. apply Qle_bool_iff.
Qed.

Lemma gtb_true (x y : Q) : JS.gtb x y = true <-> y < x.
Proof. apply (ltb_true y x). Qed.

Lemma gtb_false (x y : Q) : JS.gtb x y = false <-> x <= y.
Proof. apply (ltb_false y x). Qed.

Lemma leb_true (x y : Q) : JS.leb x y = true <-> x <= y.
Proof. apply Qle_bool_iff. Qed.

Lemma leb_false (x y : Q) : JS.leb x y = false <-> y < x.
Proof.
  unfold JS.leb. split; intro Hxy.
  - apply Qnot_le_lt. intro Hle. apply Qle_bool_iff in Hle. congruence.
  - destruct (Qle_bool x y) eqn:E; [|reflexivity].
    apply Qle_bool_iff in E. exfalso. apply (Qlt_not_le _ _ Hxy E).
Qed.

Lemma geb_true (x y : Q) : JS.geb x y = true <-> y <= x.
Proof. apply Qle_bool_iff. Qed.

Lemma geb_false (x y : Q) : JS.geb x y = false <-> x < y.
Proof. apply (leb_false y x). Qed.

Lemma ltb_comp (x x' y y' : Q) : x == x' -> y == y' -> JS.ltb x y = JS.ltb x' y'.
Proof. intros Hx Hy. unfold JS.ltb. now rewrite Hx, Hy. Qed.

Lemma leb_comp (x x' y y' : Q) : x == x' -> y == y' -> JS.leb x y = JS.leb x' y'.
Proof. intros Hx Hy. unfold JS.leb. now rewrite Hx, Hy. Qed.

Lemma Qmax_ge_l (x y : Q) : x <= Qmax x y.
Proof. apply Q.le_max_l. Qed.

Lemma Qmax_ge_r (x y : Q) : y <= Qmax x y.
Proof. apply Q.le_max_r. Qed.

Lemma Qmax_floor_pos (x : Q) : 0 < Qmax x 1e-9.
Proof.
  apply Qlt_le_trans with (y := 1e-9); [reflexivity | apply Q.le_max_r].
Qed.

Lemma Qmax_above (x fl : Q) : fl <= x -> Qmax x fl == x.
Proof. intro Hfl. apply Q.max_l. exact Hfl. Qed.

End Comparisons.

(** ** Wind load *)
Section WindLoad.
Import Wind.

(** C5, as stated, fails: the resultant force of scenario A is not
    8503.2 N. *)
Lemma scenarioA_force_not_8503_2 : ~ Fw_total scenarioA == 8503.2.
Proof. vm_compute. discriminate. Qed.

(** C5 (amended).  With V = 34 m/s, the five modifiers 1.0, shape
    coefficient 2.0 and panel area 6.0 m2, the basic velocity pressure is
    0.613 x 34^2 Pa, the design velocity pressure equals it, and the
    resultant wind force is 0.613 x 34^2 x 2.0 x 6.0 = 8503.536 N. *)
Theorem scenarioA_wind :
  panelArea scenarioA == 6 /\
  q0 scenarioA == 0.613 * 34 ^ 2 /\
  qz scenarioA == q0 scenarioA /\
  Fw_total scenarioA == 8503.536.
Proof. repeat split; vm_compute; reflexivity. Qed.

End WindLoad.

(** ** Anchor group *)
Section AnchorGroup.
Import Anchor.

Lemma or_num_spec (x dflt : Q) :
  (x == 0 /\ JS.or_num x dflt = dflt) \/ (~ x == 0 /\ JS.or_num x dflt = x).
Proof.
  unfold JS.or_num. destruct (Qeq_bool x 0) eqn:E.
  - left. split; [now apply Qeq_bool_eq | reflexivity].
  - right. split; [now apply Qeq_bool_neq | reflexivity].
Qed.

Lemma sumY2_formula (g p : Q) : sumY2 g p == 4 * (g / 2 / 1000) ^ 2.
Proof. unfold sumY2, computeAnchorTensions, coords. simpl. field. Qed.

Lemma sumY2_any_M (M g p : Q) : snd (computeAnchorTensions M g p) = sumY2 g p.
Proof. reflexivity. Qed.

Lemma T_each_unfold (M g p : Q) :
  T_each M g p =
  map (fun c =>
         {| id := c_id c; x := c_x c; y := c_y c;
            T := if JS.ltb 0 (sumY2 g p)
                 then (M * (c_y c / 1000)) / sumY2 g p
                 else 0 |}) (coords g p).
Proof. reflexivity. Qed.

(** C1: the verification divides the shear by the selected quantity, not
    by 4: with eight anchors and Fh = 8000 N each anchor is charged 1000 N,
    whereas the automatic design charges 8000 / 4 = 2000 N. *)
Theorem V_anchor_follows_anchorQty :
  V_anchor 8000 8 == 1000 /\
  ~ V_anchor 8000 8 == 8000 / 4 /\
  V_c 8000 8 == 8000 / 4.
Proof.
  split; [|split].
  - vm_compute. reflexivity.
  - vm_compute. discriminate.
  - vm_compute. reflexivity.
Qed.

(** C2, as stated, fails: for gauge 200 mm and pitch 160 mm the sum of
    squares is not 0.02 m2 and the upper-row tension under M = 1 is not 5. *)
Lemma scenarioB_not_5M :
  ~ sumY2 200 160 == 0.02 /\ ~ T_row 1 200 160 == 5 * 1.
Proof. split; vm_compute; discriminate. Qed.

(** C2 (amended).  For gauge 200 mm and pitch 160 mm the sum runs over all
    four anchors, 4 x 0.1^2 = 0.04 m2; for every moment M both upper
    anchors carry M x 0.1 / 0.04 = 2.5 M, the top-row tension is
    max(2.5 M, 0) and Tmax = 2.5 |M|. *)
Lemma sumY2_pos_test (g p : Q) : 0 < g -> JS.ltb 0 (sumY2 g p) = true.
Proof.
  intro Hg. apply ltb_true. rewrite sumY2_formula.
  assert (Hh : 0 < g / 2 / 1000) by qlra.
  assert (Hsq : 0 < (g / 2 / 1000) * (g / 2 / 1000))
    by (apply Qmult_lt_0_compat; assumption).
  simpl. lra.
Qed.

Lemma sumY2_zero_test (p : Q) : JS.ltb 0 (sumY2 0 p) = false.
Proof. reflexivity. Qed.

Lemma T_each_pos (M g p : Q) :
  0 < g ->
  T_each M g p =
  [ {| id := "UL"; x := - (p / 2); y := g / 2; T := upper M g p |};
    {| id := "UR"; x := p / 2; y := g / 2; T := upper M g p |};
    {| id := "LL"; x := - (p / 2); y := - (g / 2); T := lower M g p |};
    {| id := "LR"; x := p / 2; y := - (g / 2); T := lower M g p |} ].
Proof.
  intro Hg. rewrite T_each_unfold, (sumY2_pos_test g p Hg). reflexivity.
Qed.

Lemma T_each_zero (M p : Q) : map T (T_each M 0 p) = [0; 0; 0; 0].
Proof. rewrite T_each_unfold, map_map. reflexivity. Qed.

Lemma T_row_pos (M g p : Q) :
  0 < g -> T_row M g p = Qmax (upper M g p) (Qmax (upper M g p) 0).
Proof.
  intro Hg. unfold T_row. rewrite (T_each_pos M g p Hg).
  cbv [filter y].
  assert (Hu : JS.ltb 0 (g / 2) = true) by (apply ltb_true; qlra).
  assert (Hl : JS.ltb 0 (- (g / 2)) = false) by (apply ltb_false; qlra).
  rewrite Hu, Hl. reflexivity.
Qed.

Lemma Tmax_pos (M g p : Q) :
  0 < g ->
  Tmax M g p =
  Qmax (Qmax 0 (upper M g p))
    (Qmax (Qmax 0 (upper M g p))
       (Qmax (Qmax 0 (lower M g p)) (Qmax (Qmax 0 (lower M g p)) 0))).
Proof. intro Hg. unfold Tmax. rewrite (T_each_pos M g p Hg). reflexivity. Qed.

Lemma upper_200 (M p : Q) : upper M 200 p == 2.5 * M.
Proof. unfold upper. rewrite sumY2_formula. field. Qed.

Lemma lower_200 (M p : Q) : lower M 200 p == - (2.5 * M).
Proof. unfold lower. rewrite sumY2_formula. field. Qed.

Theorem scenarioB_tensions (M : Q) :
  sumY2 200 160 == 0.04 /\
  Forall2 Qeq (map T (T_each M 200 160))
              [2.5 * M; 2.5 * M; - (2.5 * M); - (2.5 * M)] /\
  T_row M 200 160 == Qmax (2.5 * M) 0 /\
  Tmax M 200 160 == 2.5 * Qabs M.
Proof.
  assert (Hg : 0 < 200) by reflexivity.
  split; [vm_compute; reflexivity|].
  split; [|split].
  - rewrite (T_each_pos M 200 160 Hg). cbv [map T].
    repeat constructor;
      first [apply upper_200 | apply lower_200].
  - rewrite (T_row_pos M 200 160 Hg), upper_200.
    minmax_lra.
  - rewrite (Tmax_pos M 200 160 Hg), upper_200, lower_200.
    minmax_lra.
Qed.

(** C6.  For every moment M and every gauge > 0 and pitch > 0 the four
    tensions of the distribution carry the moment back exactly: the sum of
    T_i times the offset y_i (in metres, as in the distribution) is M. *)
Theorem tensions_reconstruct_moment (M g p : Q) :
  0 < g -> 0 < p -> moment_of (T_each M g p) == M.
Proof.
  intros Hg _. rewrite (T_each_pos M g p Hg).
  unfold moment_of, upper, lower. cbv [fold_right T y].
  rewrite sumY2_formula. field. intro H0. rewrite H0 in Hg.
  discriminate Hg.
Qed.

Lemma tensions_reconstruct_moment_witness :
  0 < 200 /\ 0 < 160 /\ moment_of (T_each 1000 200 160) == 1000.
Proof.
  split; [reflexivity|]. split; [reflexivity|].
  apply (tensions_reconstruct_moment 1000 200 160); reflexivity.
Defined.

Lemma Tmax_unfold (M g p : Q) :
  Tmax M g p = JS.max_list (map (Qmax 0) (map T (T_each M g p))) 0.
Proof. unfold Tmax. now rewrite map_map. Qed.

Lemma Tmax_zero_gauge (M p : Q) : Tmax M 0 p == 0.
Proof. rewrite Tmax_unfold, T_each_zero. vm_compute. reflexivity. Qed.

Lemma tension_term_comp (ta t t' : Q) (b : Q) :
  t == t' ->
  JS.num_ltb (JS.add (tension_term ta t) (JS.Fin b)) 1 =
  JS.num_ltb (JS.add (tension_term ta t') (JS.Fin b)) 1.
Proof.
  intro Ht. unfold tension_term. destruct (JS.ltb 0 ta); [|reflexivity].
  simpl. apply ltb_comp; [|reflexivity]. now rewrite Ht.
Qed.

(** C9.  With gauge 0 the sum of squares is 0 and the distribution returns
    tension 0 for the four anchors, without dividing; hence Tmax = 0 for
    every moment M, and the interaction check is the one of a zero
    tension demand. *)
Theorem zero_gauge_no_tension (M p : Q) :
  sumY2 0 p == 0 /\
  map T (T_each M 0 p) = [0; 0; 0; 0] /\
  Tmax M 0 p == 0 /\
  forall ta va V, anchorOK ta va (Tmax M 0 p) V = anchorOK ta va 0 V.
Proof.
  split; [vm_compute; reflexivity|].
  split; [apply T_each_zero|].
  split; [apply Tmax_zero_gauge|].
  intros ta va V. unfold anchorOK, etaAnchorLinear, shear_term.
  destruct (JS.ltb 0 va); apply tension_term_comp, Tmax_zero_gauge.
Qed.

(** C10.  A non-positive effective tension capacity makes the ratio
    infinite, which fails the check; a non-positive shear capacity Va makes
    the shear term 0, so that the check is decided by the tension term
    alone, whatever the shear demand. *)
Theorem interaction_guards (ta va Tm V : Q) :
  (ta <= 0 ->
     tension_term ta Tm = JS.Inf /\
     etaAnchorLinear ta va Tm V = JS.Inf /\
     anchorOK ta va Tm V = false) /\
  (va <= 0 ->
     shear_term va V = JS.Fin 0 /\
     anchorOK ta va Tm V = JS.num_ltb (tension_term ta Tm) 1).
Proof.
  split.
  - intro Hta. apply ltb_false in Hta.
    unfold anchorOK, etaAnchorLinear, tension_term. rewrite Hta.
    repeat split.
  - intro Hva. apply ltb_false in Hva.
    unfold anchorOK, etaAnchorLinear, shear_term. rewrite Hva.
    split; [reflexivity|].
    destruct (tension_term ta Tm) as [t|]; [|reflexivity].
    simpl. apply ltb_comp; [|reflexivity]. ring.
Qed.

Lemma interaction_guards_witness :
  0 <= 0 /\
  tension_term 0 5000 = JS.Inf /\
  etaAnchorLinear 0 0 5000 700 = JS.Inf /\
  anchorOK 0 0 5000 700 = false /\
  shear_term 0 700 = JS.Fin 0 /\
  anchorOK 0 0 5000 700 = JS.num_ltb (tension_term 0 5000) 1.
Proof.
  assert (H0 : 0 <= 0) by discriminate.
  destruct (interaction_guards 0 0 5000 700) as [Ht Hs].
  destruct (Ht H0) as (H1 & H2 & H3).
  destruct (Hs H0) as (H4 & H5).
  repeat split; assumption.
Defined.

End AnchorGroup.

(** ** Configuration import *)
Section ConfigImport.
Import Anchor Config.

(** C7: importing a file that names the anchor M36 ABR and carries an
    embedment of 100 mm into the initial (free-standing, M27 ABR) state
    selects M36 ABR but clamps the embedment with the diameter of the anchor
    that was selected before the import: 540 mm is accepted although
    20 x 36 = 720 mm is required, and the embedment check fails. *)
Theorem import_clamps_with_previous_anchor :
  let st := importConfig initialState cfg_short in
  signType st = "freestanding"%string /\
  name (anchor st) = "M36 ABR"%string /\
  anchorEmbed st == 540 /\
  hefReq (signType st) (anchor st) == 720 /\
  hefOK (signType st) (anchor st) (anchorEmbed st) = false.
Proof. vm_compute. repeat split. Qed.

End ConfigImport.

(** ** Footing stability *)
Section FootingStability.
Import Foundation.

Lemma eval_N env B D H : N (evalFoundation env B D H) = N_of env B D H.
Proof. reflexivity. Qed.

Lemma eval_e env B D H :
  e (evalFoundation env B D H) = e_val env (N_of env B D H).
Proof. reflexivity. Qed.

Lemma eval_contactMode env B D H :
  contactMode (evalFoundation env B D H)
  = mode_val (e_val env (N_of env B D H)) B.
Proof. reflexivity. Qed.

Lemma eval_b_eff env B D H :
  b_eff (evalFoundation env B D H)
  = b_eff_val (mode_val (e_val env (N_of env B D H)) B)
              (e_val env (N_of env B D H)) B.
Proof. reflexivity. Qed.

Lemma eval_sigma_max env B D H :
  sigma_max (evalFoundation env B D H)
  = sigma_max_val (mode_val (e_val env (N_of env B D H)) B)
                  (N_of env B D H) (e_val env (N_of env B D H)) B D.
Proof. reflexivity. Qed.

Lemma eval_sigma_min env B D H :
  sigma_min (evalFoundation env B D H)
  = sigma_min_val (mode_val (e_val env (N_of env B D H)) B)
                  (N_of env B D H) (e_val env (N_of env B D H)) B D.
Proof. reflexivity. Qed.

Lemma eval_noUplift env B D H :
  noUplift (evalFoundation env B D H)
  = noUplift_val (mode_val (e_val env (N_of env B D H)) B)
                 (N_of env B D H) (e_val env (N_of env B D H)) B D.
Proof. reflexivity. Qed.

Lemma eval_bearingOK env B D H :
  bearingOK (evalFoundation env B D H)
  = bearing_val env (sigma_max (evalFoundation env B D H)).
Proof. reflexivity. Qed.

Lemma eval_FS_OT env B D H :
  FS_OT (evalFoundation env B D H)
  = FS_OT_val env (N_of env B D H) (e_val env (N_of env B D H)) B D.
Proof. reflexivity. Qed.

Lemma eval_FS_SL env B D H :
  FS_SL (evalFoundation env B D H)
  = FS_SL_val env (N_of env B D H) B (b_eff (evalFoundation env B D H)) D.
Proof. reflexivity. Qed.

Lemma eval_volume env B D H :
  volume (evalFoundation env B D H) = area env B D * H.
Proof. reflexivity. Qed.

Lemma eval_qa env B D H :
  qa_allow_final (evalFoundation env B D H) = qa_final env.
Proof. reflexivity. Qed.

Lemma eval_ok env B D H : ok (evalFoundation env B D H) = ok_val env B D H.
Proof. reflexivity. Qed.

Lemma eval_ok_split env B D H :
  ok (evalFoundation env B D H)
  = bearingOK (evalFoundation env B D H)
    && OT_OK (evalFoundation env B D H)
    && SL_OK (evalFoundation env B D H).
Proof. reflexivity. Qed.

(** *** Monotonicity of the overturning factor in the width *)

Lemma div_le_anti (a d1 d2 : Q) :
  0 <= a -> 0 < d1 -> d1 <= d2 -> a / d2 <= a / d1.
Proof.
  intros Ha Hd1 Hd.
  assert (Hd2 : 0 < d2) by lra.
  apply Qle_shift_div_l; [exact Hd1|].
  assert (Hq : 0 <= a / d2) by (apply Qle_shift_div_l; [exact Hd2 | lra]).
  assert (Hm : a / d2 * d2 == a) by (field; lra).
  nra.
Qed.

Lemma div_le_mono (a b c : Q) : 0 < c -> a <= b -> a / c <= b / c.
Proof.
  intros Hc Hab. apply Qle_shift_div_l; [exact Hc|].
  assert (Hm : a / c * c == a) by (field; lra). lra.
Qed.

Lemma t1_nonneg env : 0 <= t1_of env.
Proof. apply Q.le_max_l. Qed.

Lemma area_pos env B D : 0 < area env B D.
Proof. unfold area. destruct (footShape env); apply Qmax_floor_pos. Qed.

Lemma area_mono env B1 B2 D :
  0 <= D -> B1 <= B2 -> area env B1 D <= area env B2 D.
Proof.
  intros HD HB. unfold area.
  pose proof (t1_nonneg env) as Ht.
  destruct (footShape env); apply Q.max_le_compat_r; nra.
Qed.

Lemma N_mono env B1 B2 D H :
  0 <= D -> 0 <= H ->
  0 <= concUnitW env -> 0 <= soilUnitW env -> 0 <= coverT env ->
  B1 <= B2 -> N_of env B1 D H <= N_of env B2 D H.
Proof.
  intros HD HH Hc Hs Ht HB. unfold N_of.
  pose proof (area_mono env B1 B2 D HD HB) as Ha.
  set (a1 := area env B1 D) in *. set (a2 := area env B2 D) in *.
  assert (Hk1 : 0 <= concUnitW env * H) by nra.
  assert (Hk2 : 0 <= soilUnitW env * coverT env) by nra.
  nra.
Qed.

Lemma N_nonneg env B D H :
  0 <= H -> 0 <= concUnitW env -> 0 <= soilUnitW env -> 0 <= coverT env ->
  0 <= Wself_perCol env -> 0 <= N_of env B D H.
Proof.
  intros HH Hc Hs Ht Hw. unfold N_of.
  pose proof (area_pos env B D) as Ha. set (a := area env B D) in *.
  assert (Hk1 : 0 <= concUnitW env * H) by nra.
  assert (Hk2 : 0 <= soilUnitW env * coverT env) by nra.
  nra.
Qed.

Lemma e_val_anti env N1 N2 : N1 <= N2 -> e_val env N2 <= e_val env N1.
Proof.
  intro HN. unfold e_val. apply div_le_anti.
  - apply Qabs_nonneg.
  - apply Qmax_floor_pos.
  - apply Q.max_le_compat_r. exact HN.
Qed.

(** C8, as stated, fails for a footing that weighs less than nothing.
    With a concrete unit weight of -10 kN/m3, which the input field and the
    configuration import accept, widening a footing 1 m deep and 1 m thick
    from 1 m to 2 m lowers the vertical load from 5400 N to 800 N, and the
    overturning factor of safety from 41.435 to 22.435. *)
Lemma FS_OT_falls_with_negative_weight :
  let env := Scenario.env_negative in
  1 <= 2 /\
  N (evalFoundation env 1 1 1) == 5400 /\
  N (evalFoundation env 2 1 1) == 800 /\
  FS_OT (evalFoundation env 1 1 1) == 41.435 /\
  FS_OT (evalFoundation env 2 1 1) == 22.435 /\
  FS_OT (evalFoundation env 2 1 1) < FS_OT (evalFoundation env 1 1 1).
Proof.
  cbv zeta. split; [discriminate|].
  repeat split; vm_compute; reflexivity.
Qed.

(** C8 (amended).  For widths B1 <= B2, with the depth, the thickness, the
    unit weights, the cover and the self-weight reaction fixed and
    non-negative and every other input fixed, the overturning factor of
    safety computed at B2 is at least the one computed at B1. *)
Theorem FS_OT_monotone_in_B (env : Env) (B1 B2 D H : Q) :
  0 <= D -> 0 <= H ->
  0 <= concUnitW env -> 0 <= soilUnitW env -> 0 <= coverT env ->
  0 <= Wself_perCol env ->
  B1 <= B2 ->
  FS_OT (evalFoundation env B1 D H) <= FS_OT (evalFoundation env B2 D H).
Proof.
  intros HD HH Hc Hs Ht Hw HB. rewrite !eval_FS_OT. unfold FS_OT_val.
  pose proof (N_mono env B1 B2 D H HD HH Hc Hs Ht HB) as HN.
  pose proof (N_nonneg env B1 D H HH Hc Hs Ht Hw) as HN0.
  pose proof (e_val_anti env _ _ HN) as He.
  set (n1 := N_of env B1 D H) in *. set (n2 := N_of env B2 D H) in *.
  set (e1 := e_val env n1) in *. set (e2 := e_val env n2) in *.
  apply div_le_mono; [apply Qmax_floor_pos|].
  apply Qplus_le_compat; [|apply Qle_refl].
  assert (Hl1 : 0 <= Qmax (B1 / 2 - e1) 0) by apply Q.le_max_r.
  assert (Hl : Qmax (B1 / 2 - e1) 0 <= Qmax (B2 / 2 - e2) 0).
  { apply Q.max_le_compat_r. qlra. }
  set (l1 := Qmax (B1 / 2 - e1) 0) in *. set (l2 := Qmax (B2 / 2 - e2) 0) in *.
  nra.
Qed.

Lemma FS_OT_monotone_in_B_witness :
  0.8 <= 1 /\
  FS_OT (evalFoundation Scenario.env_light 0.8 0.8 0.8)
  <= FS_OT (evalFoundation Scenario.env_light 1 0.8 0.8).
Proof.
  split; [discriminate|].
  apply (FS_OT_monotone_in_B Scenario.env_light 0.8 1 0.8 0.8);
    apply Qle_bool_imp_le; reflexivity.
Defined.

(** *** Contact states *)

Lemma e_val_above_floor env Nv :
  1e-9 <= Nv -> e_val env Nv == Qabs (M env) / Nv.
Proof. intro HN. unfold e_val. now rewrite (Qmax_above Nv 1e-9 HN). Qed.

(** C3, as stated, fails below the floors that guard the divisions.  A
    vertical load of 5e-10 N is positive and has |M| / N = 0.2, between B / 6
    and B / 2 for B = 1, yet the state is "full"; and with N = 1000 N and an
    eccentricity 1e-10 short of B / 2 the state is "partial" but the maximum
    pressure is not 2 N / (b_eff D). *)
Lemma contact_claim_fails_below_floor :
  (let r := evalFoundation Scenario.env_tiny 1 1 1 in
   0 < N r /\
   1 / 6 < e_spec Scenario.env_tiny 1 1 1 /\
   e_spec Scenario.env_tiny 1 1 1 < 1 / 2 /\
   contactMode r = full) /\
  (let r := evalFoundation Scenario.env_edge 1 1 1 in
   0 < N r /\
   1 / 6 < e_spec Scenario.env_edge 1 1 1 /\
   e_spec Scenario.env_edge 1 1 1 < 1 / 2 /\
   contactMode r = partial /\
   b_eff r == 3 * (1 / 2 - e_spec Scenario.env_edge 1 1 1) /\
   ~ JS.num_eq (sigma_max r) (JS.Fin (2 * N r / (b_eff r * 1)))).
Proof.
  split; vm_compute; repeat split; discriminate.
Qed.

(** C3 (amended).  For every footing evaluation whose vertical load N,
    width B and plan area B D are at least the floor 1e-9 of the guarded
    divisions, the eccentricity is e = |M| / N and exactly one of three
    contact states is selected: full when e <= B / 6, with
    sigma_max/min = (N / (B D)) (1 +- 6 e / B) and no-uplift iff
    sigma_min >= 0; partial when B / 6 < e < B / 2, with
    b_eff = 3 (B / 2 - e), sigma_max = 2 N / max(b_eff D, 1e-9),
    sigma_min = 0 and no-uplift false; none when e >= B / 2, with
    sigma_max infinite and the bearing check and the verdict failed. *)
Theorem contact_states (env : Env) (B D H : Q) :
  1e-9 <= N_of env B D H -> 1e-9 <= B -> 1e-9 <= B * D ->
  let r := evalFoundation env B D H in
  let ev := e_spec env B D H in
  e r == ev /\
  ((ev <= B / 6 /\
    contactMode r = full /\
    JS.num_eq (sigma_max r) (JS.Fin (N r / (B * D) * (1 + 6 * ev / B))) /\
    sigma_min r == N r / (B * D) * (1 - 6 * ev / B) /\
    (noUplift r = true <-> 0 <= sigma_min r))
   \/
   (B / 6 < ev /\ ev < B / 2 /\
    contactMode r = partial /\
    b_eff r == 3 * (B / 2 - ev) /\
    sigma_max r = JS.Fin (2 * N r / Qmax (b_eff r * D) 1e-9) /\
    sigma_min r == 0 /\
    noUplift r = false)
   \/
   (B / 2 <= ev /\
    contactMode r = none /\
    sigma_max r = JS.Inf /\
    bearingOK r = false /\
    ok r = false)).
Proof.
  intros HN HB HBD. cbv zeta.
  pose proof (e_val_above_floor env _ HN) as He.
  fold (e_spec env B D H) in He.
  assert (HB0 : ~ B == 0).
  { intro Hz. rewrite Hz in HB. apply (Qlt_not_le 0 1e-9); [reflexivity | exact HB]. }
  assert (HBD0 : ~ B * D == 0).
  { intro Hz. rewrite Hz in HBD. apply (Qlt_not_le 0 1e-9); [reflexivity | exact HBD]. }
  assert (HD0 : ~ D == 0) by (intro Hz; apply HBD0; rewrite Hz; ring).
  rewrite eval_e. split; [exact He|].
  rewrite eval_contactMode, eval_b_eff, eval_ok_split, eval_bearingOK,
    eval_noUplift, eval_sigma_max, eval_sigma_min, eval_N.
  set (n := N_of env B D H) in *.
  set (ec := e_val env n) in *.
  set (ev := e_spec env B D H) in *.
  unfold mode_val.
  destruct (JS.leb ec (B / 6)) eqn:E1.
  - left. apply leb_true in E1.
    split; [apply Qle_trans with (y := ec); [rewrite He; apply Qle_refl | exact E1]|].
    split; [reflexivity|].
    split; [|split].
    + unfold sigma_max_val, JS.num_eq.
      rewrite (Qmax_above _ _ HB), (Qmax_above _ _ HBD), He.
      field. repeat split; assumption.
    + unfold sigma_min_val.
      rewrite (Qmax_above _ _ HB), (Qmax_above _ _ HBD), He.
      field. repeat split; assumption.
    + unfold noUplift_val. apply geb_true.
  - apply leb_false in E1.
    destruct (JS.ltb ec (B / 2)) eqn:E2.
    + right; left. apply ltb_true in E2.
      split; [apply Qlt_le_trans with (y := ec); [exact E1 | rewrite He; apply Qle_refl]|].
      split; [apply Qle_lt_trans with (y := ec); [rewrite He; apply Qle_refl | exact E2]|].
      split; [reflexivity|].
      split.
      * unfold b_eff_val. rewrite <- He. apply Q.max_l. qlra.
      * repeat split; reflexivity.
    + right; right. apply ltb_false in E2.
      split; [apply Qle_trans with (y := ec); [exact E2 | rewrite He; apply Qle_refl]|].
      repeat split; reflexivity.
Qed.

Lemma contact_states_witness :
  let env := Scenario.env_light in
  let r := evalFoundation env 0.8 0.8 0.8 in
  let ev := e_spec env 0.8 0.8 0.8 in
  1e-9 <= N_of env 0.8 0.8 0.8 /\ 1e-9 <= 0.8 /\ 1e-9 <= 0.8 * 0.8 /\
  e r == ev /\
  ((ev <= 0.8 / 6 /\
    contactMode r = full /\
    JS.num_eq (sigma_max r) (JS.Fin (N r / (0.8 * 0.8) * (1 + 6 * ev / 0.8))) /\
    sigma_min r == N r / (0.8 * 0.8) * (1 - 6 * ev / 0.8) /\
    (noUplift r = true <-> 0 <= sigma_min r))
   \/
   (0.8 / 6 < ev /\ ev < 0.8 / 2 /\
    contactMode r = partial /\
    b_eff r == 3 * (0.8 / 2 - ev) /\
    sigma_max r = JS.Fin (2 * N r / Qmax (b_eff r * 0.8) 1e-9) /\
    sigma_min r == 0 /\
    noUplift r = false)
   \/
   (0.8 / 2 <= ev /\
    contactMode r = none /\
    sigma_max r = JS.Inf /\
    bearingOK r = false /\
    ok r = false)).
Proof.
  cbv zeta.
  assert (H1 : 1e-9 <= N_of Scenario.env_light 0.8 0.8 0.8)
    by (apply Qle_bool_imp_le; reflexivity).
  assert (H2 : 1e-9 <= 0.8) by discriminate.
  assert (H3 : 1e-9 <= 0.8 * 0.8) by discriminate.
  split; [exact H1|]. split; [exact H2|]. split; [exact H3|].
  exact (contact_states Scenario.env_light 0.8 0.8 0.8 H1 H2 H3).
Defined.

End FootingStability.

(** ** The order of binary64 *)
Section Binary64Order.
Import PrimFloat SpecFloat.
Local Open Scope float_scope.

Lemma SFltb_trans (x y z : spec_float) :
  SFltb x y = true -> SFltb y z = true -> SFltb x z = true.
Proof. unfold SFltb, SFcompare. sf_cases x y z. Qed.

Lemma SFleb_ltb_trans (x y z : spec_float) :
  SFleb x y = true -> SFltb y z = true -> SFltb x z = true.
Proof. unfold SFltb, SFleb, SFcompare. sf_cases x y z. Qed.

Lemma SFltb_leb_trans (x y z : spec_float) :
  SFltb x y = true -> SFleb y z = true -> SFltb x z = true.
Proof. unfold SFltb, SFleb, SFcompare. sf_cases x y z. Qed.

Lemma SFltb_leb (x y : spec_float) : SFltb x y = true -> SFleb x y = true.
Proof.
  unfold SFltb, SFleb. destruct (SFcompare x y) as [[| |]|];
    try discriminate; reflexivity.
Qed.

Lemma SFltb_irrefl (x : spec_float) : SFltb x x = false.
Proof.
  unfold SFltb, SFcompare.
  destruct x as [s|s| |s m e]; try reflexivity; destruct s; try reflexivity;
    rewrite Z.compare_refl; fold (Pos.compare m m);
    rewrite Pos.compare_refl; reflexivity.
Qed.

(** [<] and [<=] on doubles, as the program tests them: both are false
    when an operand is [NaN]. *)
Lemma f64_ltb_trans (x y z : float) :
  (x <? y) = true -> (y <? z) = true -> (x <? z) = true.
Proof. rewrite !FloatAxioms.ltb_spec. apply SFltb_trans. Qed.

Lemma f64_leb_ltb_trans (x y z : float) :
  (x <=? y) = true -> (y <? z) = true -> (x <? z) = true.
Proof.
  rewrite !FloatAxioms.ltb_spec, FloatAxioms.leb_spec. apply SFleb_ltb_trans.
Qed.

Lemma f64_ltb_leb_trans (x y z : float) :
  (x <? y) = true -> (y <=? z) = true -> (x <? z) = true.
Proof.
  rewrite !FloatAxioms.ltb_spec, FloatAxioms.leb_spec. apply SFltb_leb_trans.
Qed.

Lemma f64_ltb_leb (x y : float) : (x <? y) = true -> (x <=? y) = true.
Proof. rewrite FloatAxioms.ltb_spec, FloatAxioms.leb_spec. apply SFltb_leb. Qed.

Lemma f64_ltb_irrefl (x : float) : (x <? x) = false.
Proof. rewrite FloatAxioms.ltb_spec. apply SFltb_irrefl. Qed.

(** With x < y: y is not at most x; what is not below y is not at most x;
    what is not at most y is not at most x. *)
Lemma f64_ltb_not_leb (x y : float) : (x <? y) = true -> (y <=? x) = false.
Proof.
  intro H. destruct (y <=? x) eqn:E; [|reflexivity].
  rewrite <- (f64_ltb_irrefl x). symmetry.
  exact (f64_ltb_leb_trans x y x H E).
Qed.

Lemma f64_leb_below (x y c : float) :
  (x <? y) = true -> (c <? y) = false -> (c <=? x) = false.
Proof.
  intros Hxy Hcy. destruct (c <=? x) eqn:E; [|reflexivity].
  rewrite <- Hcy. symmetry. exact (f64_leb_ltb_trans c x y E Hxy).
Qed.

Lemma f64_leb_below_weak (x y c : float) :
  (x <? y) = true -> (c <=? y) = false -> (c <=? x) = false.
Proof.
  intros Hxy Hcy. destruct (c <=? x) eqn:E; [|reflexivity].
  rewrite <- Hcy. symmetry.
  exact (f64_ltb_leb c y (f64_leb_ltb_trans c x y E Hxy)).
Qed.

(** With y < x: what y is not below, x is not at most; what y is not at
    most, x is not at most. *)
Lemma f64_leb_above (y x c : float) :
  (y <? x) = true -> (y <? c) = false -> (x <=? c) = false.
Proof.
  intros Hyx Hyc. destruct (x <=? c) eqn:E; [|reflexivity].
  rewrite <- Hyc. symmetry. exact (f64_ltb_leb_trans y x c Hyx E).
Qed.

Lemma f64_leb_above_weak (y x c : float) :
  (y <? x) = true -> (y <=? c) = false -> (x <=? c) = false.
Proof.
  intros Hyx Hyc. destruct (x <=? c) eqn:E; [|reflexivity].
  rewrite <- Hyc. symmetry.
  exact (f64_ltb_leb y c (f64_ltb_leb_trans y x c Hyx E)).
Qed.

End Binary64Order.

(** ** Footing optimiser *)
Section FootingSearch.
Import PrimFloat Foundation64 Optimizer.
Local Open Scope float_scope.

(** The nested loops visit the candidates of [grid] in order. *)
Lemma fold_left_flat_map {S A X : Type} (f : S -> X -> S) (g : A -> list X)
  (l : list A) (s : S) :
  fold_left f (flat_map g l) s = fold_left (fun s a => fold_left f (g a) s) l s.
Proof.
  revert s. induction l as [|a l IH]; intro s; simpl; [reflexivity|].
  now rewrite fold_left_app, IH.
Qed.

Lemma fold_left_map {S A X : Type} (f : S -> X -> S) (g : A -> X)
  (l : list A) (s : S) :
  fold_left f (map g l) s = fold_left (fun s a => f s (g a)) l s.
Proof.
  revert s. induction l as [|a l IH]; intro s; simpl; [reflexivity|apply IH].
Qed.

Lemma fold_left_ext_eq {S A : Type} (f g : S -> A -> S) (l : list A) (s : S) :
  (forall s a, f s a = g s a) -> fold_left f l s = fold_left g l s.
Proof.
  intro Hfg. revert s. induction l as [|a l IH]; intro s; simpl;
    [reflexivity | now rewrite Hfg, IH].
Qed.

Lemma grid_fold_flat {S : Type} (body : S -> Cand -> S) (s0 : S) :
  grid_fold body s0 = fold_left body grid s0.
Proof.
  unfold grid_fold, grid. rewrite fold_left_flat_map.
  apply fold_left_ext_eq. intros s B.
  rewrite fold_left_flat_map.
  apply fold_left_ext_eq. intros s' D.
  now rewrite fold_left_map.
Qed.

(** *** The search among passing candidates *)

Lemma init_found env : found (init_best env) = passes env DEFAULT_FOOT.
Proof.
  unfold init_best, passes. cbv [found].
  now destruct (ok (eval env DEFAULT_FOOT)).
Qed.

Lemma init_is_default env : best (init_best env) = DEFAULT_FOOT.
Proof. reflexivity. Qed.

(** One iteration keeps the state, or takes a candidate that passed. *)
Lemma pass_step_sound env st x :
  pass_step env st x = st \/
  (passes env x = true /\
   pass_step env st x
   = {| found := true; bestScore := score env x; best := x |}).
Proof.
  unfold pass_step. cbv zeta. fold (passes env x).
  destruct (passes env x); cbn [negb]; [|left; reflexivity].
  destruct (negb (found st) || (score env x <? bestScore st));
    [right; split; reflexivity | left; reflexivity].
Qed.

(** The first candidate that passes is taken. *)
Lemma pass_step_first env st x :
  passes env x = true -> found st = false ->
  found (pass_step env st x) = true.
Proof.
  intros Px Hf. unfold pass_step. cbv zeta. fold (passes env x).
  rewrite Px, Hf. reflexivity.
Qed.

(** What the first loop has computed after a run over [l] from [st0]. *)
Lemma pass_loop_sound (env : Env) (l : list Cand) (st0 : Best) :
  let st := fold_left (pass_step env) l st0 in
  (st = st0 /\
   (found st0 = false -> forall c, In c l -> passes env c = false))
  \/
  (found st = true /\ In (best st) l /\ passes env (best st) = true).
Proof.
  induction l as [|x l IH] using rev_ind; cbv zeta.
  - left. split; [reflexivity|]. intros _ c [].
  - rewrite fold_left_app. cbn [fold_left]. cbv zeta in IH.
    set (st' := fold_left (pass_step env) l st0) in *. clearbody st'.
    destruct (pass_step_sound env st' x) as [Hk | (Px & Ht)].
    + rewrite Hk.
      destruct IH as [(Hst & Hnone) | (Hf & Hin & Hp)].
      * left. split; [exact Hst|].
        intros F0 c Hc. apply in_app_or in Hc.
        destruct Hc as [Hc | [Hc | []]]; [exact (Hnone F0 c Hc)|].
        subst c. destruct (passes env x) eqn:Px; [|reflexivity].
        assert (F : found st' = false) by (rewrite Hst; exact F0).
        pose proof (pass_step_first env st' x Px F) as Hfirst.
        rewrite Hk, F in Hfirst. discriminate Hfirst.
      * right. split; [exact Hf|].
        split; [apply in_or_app; left; exact Hin | exact Hp].
    + rewrite Ht. right. cbn [found best].
      split; [reflexivity|].
      split; [apply in_or_app; right; left; reflexivity | exact Px].
Qed.

(** *** The rescue ranking *)

(** The rescue loop ends with one of the candidates it has ranked. *)
Lemma near_loop_sound (env : Env) (l : list Cand) :
  match fold_left (near_step env) l None with
  | None => l = []
  | Some b => In (nearC b) l
  end.
Proof.
  induction l as [|x l IH] using rev_ind; [reflexivity|].
  rewrite fold_left_app. cbn [fold_left].
  destruct (fold_left (near_step env) l None) as [b|].
  - unfold near_step. cbv zeta.
    destruct (F64.gtb (near_score env x) (scoreNear b)); cbn [nearC].
    + apply in_or_app. right. left. reflexivity.
    + apply in_or_app. left. exact IH.
  - unfold near_step. cbv zeta. cbn [nearC].
    apply in_or_app. right. left. reflexivity.
Qed.

(** *** The first passing candidate of least objective *)

Lemma pass_step_fail env st x :
  passes env x = false -> pass_step env st x = st.
Proof.
  intro Px. unfold pass_step. cbv zeta. fold (passes env x). now rewrite Px.
Qed.

Lemma pass_step_take env st x :
  passes env x = true ->
  found st = false \/ (score env x <? bestScore st) = true ->
  pass_step env st x = {| found := true; bestScore := score env x; best := x |}.
Proof.
  intros Px Hc. unfold pass_step. cbv zeta. fold (passes env x).
  rewrite Px. cbn [negb].
  destruct Hc as [Hf | Hlt].
  - now rewrite Hf.
  - rewrite Hlt. now rewrite orb_true_r.
Qed.

Lemma pass_step_keep env st x :
  passes env x = true -> found st = true ->
  (score env x <? bestScore st) = false ->
  pass_step env st x = st.
Proof.
  intros Px Hf Hle. unfold pass_step. cbv zeta. fold (passes env x).
  now rewrite Px, Hf, Hle.
Qed.

(** After a run over [l] from [st0]: either nothing was taken, or the
    state holds the first candidate of [l] that passes and whose objective
    no passing candidate of [l] beats, nor equals if it comes earlier. *)
Lemma pass_loop_spec (env : Env) (l : list Cand) (st0 : Best) :
  let st := fold_left (pass_step env) l st0 in
  (st = st0 /\
   (found st0 = false -> forall c, In c l -> passes env c = false) /\
   (found st0 = true ->
    forall c, In c l -> passes env c = true ->
              (score env c <? bestScore st0) = false))
  \/
  (found st = true /\
   bestScore st = score env (best st) /\
   passes env (best st) = true /\
   (found st0 = true -> (score env (best st) <? bestScore st0) = true) /\
   exists pre post,
     l = pre ++ best st :: post /\
     (forall c, In c pre -> passes env c = true ->
                (score env c <=? score env (best st)) = false) /\
     (forall c, In c post -> passes env c = true ->
                (score env c <? score env (best st)) = false)).
Proof.
  induction l as [|x l IH] using rev_ind; cbv zeta.
  - left. split; [reflexivity|]. split; intros _ c [].
  - rewrite fold_left_app. cbn [fold_left]. cbv zeta in IH.
    set (st' := fold_left (pass_step env) l st0) in *. clearbody st'.
    destruct (passes env x) eqn:Px.
    + (* x passes *)
      destruct IH as [(Hst & Hnone & Hseed)
                     | (Hf & Hbs & Hp & Hlt & pre & post & Hl & Hpre & Hpost)].
      * destruct (found st0) eqn:F0.
        -- destruct (score env x <? bestScore st0) eqn:E.
           ++ right.
              rewrite (pass_step_take env st' x Px)
                by (right; rewrite Hst; exact E).
              cbn [found bestScore best].
              split; [reflexivity|]. split; [reflexivity|].
              split; [exact Px|]. split; [intros _; exact E|].
              exists l, []. split; [reflexivity|]. split.
              ** intros c Hc Pc.
                 exact (f64_leb_below _ _ _ E (Hseed eq_refl c Hc Pc)).
              ** intros c [].
           ++ left.
              rewrite (pass_step_keep env st' x Px)
                by (rewrite Hst; assumption).
              split; [exact Hst|]. split; [intro Hd; discriminate Hd|].
              intros _ c Hc Pc. apply in_app_or in Hc.
              destruct Hc as [Hc | [Hc | []]];
                [exact (Hseed eq_refl c Hc Pc) | subst c; exact E].
        -- right.
           rewrite (pass_step_take env st' x Px) by (left; now rewrite Hst).
           cbn [found bestScore best].
           split; [reflexivity|]. split; [reflexivity|].
           split; [exact Px|]. split; [intro Hd; discriminate Hd|].
           exists l, []. split; [reflexivity|]. split.
           ** intros c Hc Pc. rewrite (Hnone eq_refl c Hc) in Pc.
              discriminate Pc.
           ** intros c [].
      * destruct (score env x <? bestScore st') eqn:E.
        -- right.
           rewrite (pass_step_take env st' x Px) by (right; exact E).
           rewrite Hbs in E.
           cbn [found bestScore best].
           split; [reflexivity|]. split; [reflexivity|].
           split; [exact Px|]. split.
           ++ intro F0. exact (f64_ltb_trans _ _ _ E (Hlt F0)).
           ++ exists l, []. split; [reflexivity|]. split; [|intros c []].
              intros c Hc Pc. rewrite Hl in Hc. apply in_app_or in Hc.
              destruct Hc as [Hc | [Hc | Hc]].
              ** exact (f64_leb_below_weak _ _ _ E (Hpre c Hc Pc)).
              ** subst c. exact (f64_ltb_not_leb _ _ E).
              ** exact (f64_leb_below _ _ _ E (Hpost c Hc Pc)).
        -- right.
           rewrite (pass_step_keep env st' x Px Hf E).
           rewrite Hbs in E.
           split; [exact Hf|]. split; [exact Hbs|]. split; [exact Hp|].
           split; [exact Hlt|].
           exists pre, (post ++ [x]). split.
           ++ rewrite Hl, <- app_assoc. reflexivity.
           ++ split; [exact Hpre|].
              intros c Hc Pc. apply in_app_or in Hc.
              destruct Hc as [Hc | [Hc | []]];
                [exact (Hpost c Hc Pc) | subst c; exact E].
    + (* x fails *)
      rewrite (pass_step_fail env st' x Px).
      destruct IH as [(Hst & Hnone & Hseed)
                     | (Hf & Hbs & Hp & Hlt & pre & post & Hl & Hpre & Hpost)].
      * left. split; [exact Hst|]. split.
        -- intros F0 c Hc. apply in_app_or in Hc.
           destruct Hc as [Hc | [Hc | []]];
             [exact (Hnone F0 c Hc) | subst c; exact Px].
        -- intros F0 c Hc Pc. apply in_app_or in Hc.
           destruct Hc as [Hc | [Hc | []]]; [exact (Hseed F0 c Hc Pc)|].
           subst c. rewrite Px in Pc. discriminate Pc.
      * right. split; [exact Hf|]. split; [exact Hbs|]. split; [exact Hp|].
        split; [exact Hlt|].
        exists pre, (post ++ [x]). split.
        -- rewrite Hl, <- app_assoc. reflexivity.
        -- split; [exact Hpre|].
           intros c Hc Pc. apply in_app_or in Hc.
           destruct Hc as [Hc | [Hc | []]]; [exact (Hpost c Hc Pc)|].
           subst c. rewrite Px in Pc. discriminate Pc.
Qed.

(** *** The first candidate of greatest rescue score *)

Lemma near_step_take env b c :
  (scoreNear b <? near_score env c) = true ->
  near_step env (Some b) c
  = Some {| nearC := c; nearR := eval env c; scoreNear := near_score env c |}.
Proof.
  intro Hlt. unfold near_step, F64.gtb. cbv zeta. now rewrite Hlt.
Qed.

Lemma near_step_keep env b c :
  (scoreNear b <? near_score env c) = false ->
  near_step env (Some b) c = Some b.
Proof.
  intro Hle. unfold near_step, F64.gtb. cbv zeta. now rewrite Hle.
Qed.

Lemma near_loop_spec (env : Env) (l : list Cand) :
  match fold_left (near_step env) l None with
  | None => l = []
  | Some b =>
      scoreNear b = near_score env (nearC b) /\
      exists pre post,
        l = pre ++ nearC b :: post /\
        (forall c, In c pre ->
                   (near_score env (nearC b) <=? near_score env c) = false) /\
        (forall c, In c post ->
                   (near_score env (nearC b) <? near_score env c) = false)
  end.
Proof.
  induction l as [|x l IH] using rev_ind; [reflexivity|].
  rewrite fold_left_app. cbn [fold_left].
  destruct (fold_left (near_step env) l None) as [b|].
  - destruct IH as (Hs & pre & post & Hl & Hpre & Hpost).
    destruct (scoreNear b <? near_score env x) eqn:E.
    + rewrite (near_step_take env b x E). rewrite Hs in E.
      cbn [nearC scoreNear].
      split; [reflexivity|]. exists l, [].
      split; [reflexivity|]. split; [|intros c []].
      intros c Hc. rewrite Hl in Hc. apply in_app_or in Hc.
      destruct Hc as [Hc | [Hc | Hc]].
      * exact (f64_leb_above_weak _ _ _ E (Hpre c Hc)).
      * subst c. exact (f64_ltb_not_leb _ _ E).
      * exact (f64_leb_above _ _ _ E (Hpost c Hc)).
    + rewrite (near_step_keep env b x E). rewrite Hs in E.
      split; [exact Hs|]. exists pre, (post ++ [x]). split.
      * rewrite Hl, <- app_assoc. reflexivity.
      * split; [exact Hpre|].
        intros c Hc. apply in_app_or in Hc.
        destruct Hc as [Hc | [Hc | []]]; [exact (Hpost c Hc)|].
        subst c. exact E.
  - subst l. unfold near_step. cbv zeta. cbn [nearC scoreNear app].
    split; [reflexivity|]. exists [], [].
    split; [reflexivity|]. split; intros c [].
Qed.

Lemma grid_first : In (0.6, 0.6, 0.4) grid.
Proof. apply (nth_error_In grid 0). vm_compute. reflexivity. Qed.

(** The outcome of the search, for every input. *)
Lemma search_sound (env : Env) :
  match search env with
  | Adopted b =>
      passes env b = true /\ (b = DEFAULT_FOOT \/ In b grid)
  | BestEffort b =>
      In b grid /\
      passes env DEFAULT_FOOT = false /\
      forall c, In c grid -> passes env c = false
  | Unchanged => False
  end.
Proof.
  unfold search. cbv zeta. rewrite !grid_fold_flat.
  pose proof (pass_loop_sound env grid (init_best env)) as Hspec.
  cbv zeta in Hspec.
  set (st := fold_left (pass_step env) grid (init_best env)) in *.
  clearbody st.
  destruct Hspec as [(Hst & Hnone) | (Hf & Hin & Hp)].
  - destruct (found st) eqn:F.
    + rewrite Hst in F |- *. rewrite init_is_default.
      split; [rewrite <- init_found; exact F | left; reflexivity].
    + rewrite Hst in F.
      pose proof (near_loop_sound env grid) as Hnear.
      destruct (fold_left (near_step env) grid None) as [b|].
      * split; [exact Hnear|].
        split; [rewrite <- init_found; exact F | exact (Hnone F)].
      * pose proof grid_first as Hin. rewrite Hnear in Hin. destruct Hin.
  - rewrite Hf. split; [exact Hp | right; exact Hin].
Qed.

(** C4: the search never tries a dimension of 2.0 m.  The loop counters
    start at 0.6 (0.4 for H) and add 0.05 in binary64; the last value of B
    and of D that meets [<= 2.0] is 1.9500000000000011, the last value of H
    is 1.9500000000000013, and the next values exceed 2.0.  With the
    initial inputs of the application and a design force of 20000 N, hence
    a moment of 70000 N m, the footing 2.0 x 2.0 x 2.0 of the stated grid
    passes the stability check; neither the default footing nor any visited
    candidate passes, and the search reports a best-effort footing, the one
    of the last value of each loop. *)
Theorem search_misses_upper_bound :
  let env := Scenario64.env_upper in
  passes env (2, 2, 2) = true /\
  passes env DEFAULT_FOOT = false /\
  (forall c, In c grid -> passes env c = false) /\
  step4 "freestanding" env = BestEffort (last Bs 0, last Ds 0, last Hs 0) /\
  last Bs 0 = 1.9500000000000011 /\
  last Ds 0 = 1.9500000000000011 /\
  last Hs 0 = 1.9500000000000013 /\
  (last Bs 0 + 0.05 <=? 2) = false /\
  (last Hs 0 + 0.05 <=? 2) = false.
Proof.
  cbv zeta.
  split; [vm_compute; reflexivity|].
  split; [vm_compute; reflexivity|].
  split.
  { assert (Hall : forallb (fun c => negb (passes Scenario64.env_upper c)) grid
                   = true) by (vm_compute; reflexivity).
    rewrite forallb_forall in Hall.
    intros c Hc. apply negb_true_iff. exact (Hall c Hc). }
  split; [vm_compute; reflexivity|].
  repeat split; vm_compute; reflexivity.
Qed.

End FootingSearch.

(** ** Base-plate stock thickness *)
Section PlateStock.
Import Plate.

Lemma snapPlateT_cases (tReq : Q) :
  (tReq <= 16 /\ snapPlateT tReq = 16) \/
  (16 < tReq <= 19 /\ snapPlateT tReq = 19) \/
  (19 < tReq <= 22 /\ snapPlateT tReq = 22) \/
  (22 < tReq <= 25 /\ snapPlateT tReq = 25) \/
  (25 < tReq <= 28 /\ snapPlateT tReq = 28) \/
  (28 < tReq <= 32 /\ snapPlateT tReq = 32) \/
  (32 < tReq <= 36 /\ snapPlateT tReq = 36) \/
  (36 < tReq /\ snapPlateT tReq = 36).
Proof.
  unfold snapPlateT, PLATE_T_OPTIONS. cbn [find].
  repeat match goal with
         | |- context [JS.geb ?t tReq] =>
             let E := fresh "E" in
             destruct (JS.geb t tReq) eqn:E;
             [apply geb_true in E | apply geb_false in E]
         end;
    cbn [List.length Nat.sub nth];
    first [ left; split; [lra | reflexivity]
          | right; left; split; [lra | reflexivity]
          | do 2 right; left; split; [lra | reflexivity]
          | do 3 right; left; split; [lra | reflexivity]
          | do 4 right; left; split; [lra | reflexivity]
          | do 5 right; left; split; [lra | reflexivity]
          | do 6 right; left; split; [lra | reflexivity]
          | do 7 right; split; [lra | reflexivity] ].
Qed.

(** X1.  The adopted thickness is always one of the seven stock values. *)
Theorem snapPlateT_in_stock (tReq : Q) :
  In (snapPlateT tReq) PLATE_T_OPTIONS.
Proof.
  destruct (snapPlateT_cases tReq)
    as [[_ E]|[[_ E]|[[_ E]|[[_ E]|[[_ E]|[[_ E]|[[_ E]|[_ E]]]]]]]];
    rewrite E; unfold PLATE_T_OPTIONS; simpl; tauto.
Qed.

(** X2.  For a request of at most 36 mm the adopted thickness covers the
    request and is the smallest stock value that does. *)
Theorem snapPlateT_least (tReq : Q) :
  tReq <= 36 ->
  tReq <= snapPlateT tReq /\
  forall t, In t PLATE_T_OPTIONS -> tReq <= t -> snapPlateT tReq <= t.
Proof.
  intro Hreq.
  destruct (snapPlateT_cases tReq)
    as [[H E]|[[H E]|[[H E]|[[H E]|[[H E]|[[H E]|[[H E]|[H E]]]]]]]];
    rewrite E; (split; [lra|]);
    intros t Ht Hle; unfold PLATE_T_OPTIONS in Ht; simpl in Ht;
    repeat (destruct Ht as [Ht|Ht]; [subst t; lra|]); destruct Ht.
Qed.

Lemma snapPlateT_least_witness :
  13.85 <= 36 /\
  13.85 <= snapPlateT 13.85 /\
  forall t, In t PLATE_T_OPTIONS -> 13.85 <= t -> snapPlateT 13.85 <= t.
Proof.
  split; [discriminate|].
  apply (snapPlateT_least 13.85). discriminate.
Defined.

(** X3.  A request above 36 mm is answered with 36 mm, which is below the
    request. *)
Theorem snapPlateT_above_stock (tReq : Q) :
  36 < tReq -> snapPlateT tReq = 36 /\ snapPlateT tReq < tReq.
Proof.
  intro Hreq.
  destruct (snapPlateT_cases tReq)
    as [[H E]|[[H E]|[[H E]|[[H E]|[[H E]|[[H E]|[[H E]|[H E]]]]]]]];
    try lra; rewrite E; split; [reflexivity | lra].
Qed.

Lemma snapPlateT_above_stock_witness :
  36 < 40 /\ snapPlateT 40 = 36 /\ snapPlateT 40 < 40.
Proof.
  split; [reflexivity|].
  apply (snapPlateT_above_stock 40). reflexivity.
Defined.

(** X4.  Snapping is monotone, and a thickness that was snapped is kept
    when snapped again. *)
Theorem snapPlateT_monotone_idempotent (t1 t2 : Q) :
  (t1 <= t2 -> snapPlateT t1 <= snapPlateT t2) /\
  snapPlateT (snapPlateT t1) = snapPlateT t1.
Proof.
  split.
  - intro Hle.
    destruct (snapPlateT_cases t1)
      as [[H1 E1]|[[H1 E1]|[[H1 E1]|[[H1 E1]|[[H1 E1]|[[H1 E1]|[[H1 E1]|[H1 E1]]]]]]]];
      destruct (snapPlateT_cases t2)
        as [[H2 E2]|[[H2 E2]|[[H2 E2]|[[H2 E2]|[[H2 E2]|[[H2 E2]|[[H2 E2]|[H2 E2]]]]]]]];
      rewrite E1, E2; lra.
  - destruct (snapPlateT_cases t1)
      as [[_ E]|[[_ E]|[[_ E]|[[_ E]|[[_ E]|[[_ E]|[[_ E]|[_ E]]]]]]]];
      rewrite E; reflexivity.
Qed.

Lemma snapPlateT_monotone_idempotent_witness :
  15 <= 20 /\ snapPlateT 15 <= snapPlateT 20 /\
  snapPlateT (snapPlateT 15) = snapPlateT 15.
Proof.
  split; [discriminate|].
  destruct (snapPlateT_monotone_idempotent 15 20) as [Hm Hi].
  split; [apply Hm; discriminate | exact Hi].
Defined.

End PlateStock.

(** ** Design force and moment *)
Section LoadCombination.
Import Load.

(** X6.  The pressure of the what-if curve at the reference wind speed is
    the design pressure of the verification; and when the shape coefficient
    is declared to include everything, the five modifiers play no part. *)
Theorem windPressure_agrees (i : Wind.Inputs) (V : Q) :
  windPressure (Wind.windV0 i) i = Wind.qz i /\
  (Wind.cfMode i = Wind.CF_INCLUDES_ALL -> windPressure V i == Wind.wind_q0 V).
Proof.
  split.
  - unfold windPressure, Wind.qz, Wind.q0, Wind.eff.
    destruct (Wind.cfMode i); reflexivity.
  - intro Hm. unfold windPressure. rewrite Hm. ring.
Qed.

Lemma windPressure_agrees_witness :
  let i := {| Wind.windV0 := 34; Wind.windKz := 1.2; Wind.windGf := 1.5;
              Wind.windIw := 1.1; Wind.windKd := 0.9; Wind.windKt := 1.3;
              Wind.cfMode := Wind.CF_INCLUDES_ALL; Wind.shapeCf := 2;
              Wind.width := 3; Wind.height := 2; Wind.areaFactor := 1 |} in
  Wind.cfMode i = Wind.CF_INCLUDES_ALL /\ windPressure 40 i == Wind.wind_q0 40.
Proof.
  cbv zeta. split; [reflexivity|].
  apply windPressure_agrees. reflexivity.
Defined.

Lemma nCol_raw_ge_1 (i : Inputs) : 1 <= nCol_raw i.
Proof. apply Q.le_max_l. Qed.

Lemma nCol_ge_1 (i : Inputs) : 1 <= nCol i.
Proof.
  unfold nCol. destruct (hasInterPostConnection i);
    [apply nCol_raw_ge_1 | apply Qle_refl].
Qed.

(** X7.  The number of columns sharing the load is a whole number, at least
    1, and exactly 1 when the columns are not connected, whatever the column
    count; the per-column force and self-weight times that number give back
    the totals. *)
Theorem column_share (i : Inputs) :
  1 <= nCol i /\
  (exists k : Z, nCol i == inject_Z k) /\
  (hasInterPostConnection i = false -> nCol i = 1) /\
  Fh i * nCol i == Fh_total i /\
  Wself_perCol i * nCol i == Wself_total i.
Proof.
  pose proof (nCol_ge_1 i) as Hn.
  split; [exact Hn|]. split; [|split; [|split]].
  - unfold nCol, nCol_raw.
    destruct (hasInterPostConnection i); [|exists 1%Z; reflexivity].
    destruct (Q.max_spec 1 (JS.floor (JS.or_num (postQty i) 1)))
      as [[_ E]|[_ E]].
    + exists (Qfloor (JS.or_num (postQty i) 1)). rewrite E. reflexivity.
    + exists 1%Z. rewrite E. reflexivity.
  - intro Hc. unfold nCol. now rewrite Hc.
  - unfold Fh. field. lra.
  - unfold Wself_perCol. field. lra.
Qed.

Lemma column_share_witness :
  let i := {| wind := Wind.scenarioA; signType := "freestanding";
              panelKg := 250; seismicC0 := 0.3; postQty := 3;
              hasInterPostConnection := false; FhInput := 0;
              forceUnit := "N"; cgHeight := 3.5 |} in
  hasInterPostConnection i = false /\ nCol i = 1.
Proof.
  cbv zeta. split; [reflexivity|].
  apply column_share. reflexivity.
Defined.

(** X8.  A positive manual force replaces the automatic one altogether
    (times 9.8 when entered in kgf); a manual force that is zero or negative
    leaves the automatic force, which for a free-standing sign is the larger
    of the wind force and the seismic force and for the other types their
    sum. *)
Theorem manual_force_overrides (i : Inputs) :
  (0 < FhInput i ->
   Fh_total i == FhInput i * (if String.eqb (forceUnit i) "kgf" then G else 1)) /\
  (FhInput i <= 0 -> Fh_total i = Fh_auto_total i) /\
  (signType i = "freestanding"%string ->
   Wind.Fw_total (wind i) <= Fh_auto_total i /\
   Wself_total i * seismicC0 i <= Fh_auto_total i) /\
  (signType i <> "freestanding"%string ->
   Fh_auto_total i = Wind.Fw_total (wind i) + Wself_total i * seismicC0 i).
Proof.
  split; [|split; [|split]].
  - intro Hpos. unfold Fh_total, Fh_manual_total_N. cbv zeta.
    assert (Hm : Qmax 0 (FhInput i) == FhInput i) by (apply Q.max_r; lra).
    assert (HG : 0 < G) by reflexivity.
    destruct (String.eqb (forceUnit i) "kgf").
    + assert (Hg : JS.gtb (Qmax 0 (FhInput i) * G) 0 = true).
      { apply gtb_true. rewrite Hm. nra. }
      rewrite Hg, Hm. reflexivity.
    + assert (Hg : JS.gtb (Qmax 0 (FhInput i)) 0 = true).
      { apply gtb_true. rewrite Hm. exact Hpos. }
      rewrite Hg, Hm. ring.
  - intro Hneg. unfold Fh_total, Fh_manual_total_N. cbv zeta.
    assert (Hm : Qmax 0 (FhInput i) == 0) by (apply Q.max_l; exact Hneg).
    destruct (String.eqb (forceUnit i) "kgf").
    + assert (Hg : JS.gtb (Qmax 0 (FhInput i) * G) 0 = false).
      { apply gtb_false. rewrite Hm. discriminate. }
      now rewrite Hg.
    + assert (Hg : JS.gtb (Qmax 0 (FhInput i)) 0 = false).
      { apply gtb_false. rewrite Hm. discriminate. }
      now rewrite Hg.
  - intro Hs. unfold Fh_auto_total. rewrite Hs. simpl String.eqb. cbv iota.
    split; [apply Q.le_max_l | apply Q.le_max_r].
  - intro Hs. unfold Fh_auto_total. apply String.eqb_neq in Hs. now rewrite Hs.
Qed.

Lemma manual_force_overrides_witness :
  let i := {| wind := Wind.scenarioA; signType := "freestanding";
              panelKg := 250; seismicC0 := 0.3; postQty := 1;
              hasInterPostConnection := true; FhInput := 500;
              forceUnit := "kgf"; cgHeight := 3.5 |} in
  0 < FhInput i /\ Fh_total i == 500 * 9.8 /\
  signType i = "freestanding"%string /\
  Wind.Fw_total (wind i) <= Fh_auto_total i.
Proof.
  cbv zeta.
  destruct (manual_force_overrides
              {| wind := Wind.scenarioA; signType := "freestanding";
                 panelKg := 250; seismicC0 := 0.3; postQty := 1;
                 hasInterPostConnection := true; FhInput := 500;
                 forceUnit := "kgf"; cgHeight := 3.5 |})
    as (Hman & _ & Hfree & _).
  split; [reflexivity|]. split; [apply Hman; reflexivity|].
  split; [reflexivity|]. apply Hfree. reflexivity.
Defined.

End LoadCombination.

(** ** Anchor demand in closed form *)
Section AnchorDemand.
Import Anchor.

Lemma upper_closed (M g p : Q) : 0 < g -> upper M g p == 500 * M / g.
Proof.
  intro Hg. unfold upper. rewrite sumY2_formula. field. lra.
Qed.

Lemma lower_closed (M g p : Q) : 0 < g -> lower M g p == - (500 * M / g).
Proof.
  intro Hg. unfold lower. rewrite sumY2_formula. field. lra.
Qed.

(** X10.  For a positive gauge g (mm) the governing anchor tension is
    500 |M| / g: it does not depend on the pitch nor on the sign of the
    moment, and the top-row tension used for the plate is 500 M / g when M is
    positive and 0 otherwise. *)
Theorem Tmax_closed_form (M g p : Q) :
  0 < g ->
  Tmax M g p == 500 * Qabs M / g /\
  T_row M g p == Qmax (500 * M / g) 0 /\
  Tmax (- M) g p == Tmax M g p.
Proof.
  intro Hg.
  assert (Hi : 0 < / g) by (apply Qinv_lt_0_compat; exact Hg).
  assert (Hmax : forall m, Tmax m g p == 500 * Qabs m / g).
  { intro m. rewrite (Tmax_pos m g p Hg), upper_closed, lower_closed by exact Hg.
    unfold Qdiv. set (k := / g) in *.
    assert (Hk : 500 * Qabs m * k == Qabs (500 * m * k)).
    { rewrite !Qabs_Qmult.
      rewrite (Qabs_pos 500) by discriminate.
      rewrite (Qabs_pos k) by lra. reflexivity. }
    rewrite Hk. set (u := 500 * m * k). minmax_lra. }
  split; [apply Hmax|]. split.
  - rewrite (T_row_pos M g p Hg), upper_closed by exact Hg. minmax_lra.
  - rewrite !Hmax, Qabs_opp. reflexivity.
Qed.

Lemma Tmax_closed_form_witness :
  0 < 200 /\ Tmax 1000 200 160 == 500 * Qabs 1000 / 200.
Proof.
  split; [reflexivity|].
  apply (Tmax_closed_form 1000 200 160). reflexivity.
Defined.

End AnchorDemand.

(** ** More on the footing evaluation *)
Section FootingVerdict.
Import Foundation Variation.

Lemma eval_OT_OK env B D H :
  OT_OK (evalFoundation env B D H)
  = OT_val env (FS_OT (evalFoundation env B D H))
               (noUplift (evalFoundation env B D H)).
Proof. reflexivity. Qed.

Lemma eval_SL_OK env B D H :
  SL_OK (evalFoundation env B D H)
  = SL_val env (FS_SL (evalFoundation env B D H)).
Proof. reflexivity. Qed.

Lemma noUplift_only_full env B D H :
  noUplift (evalFoundation env B D H) = true ->
  contactMode (evalFoundation env B D H) = full /\
  0 <= sigma_min (evalFoundation env B D H).
Proof.
  rewrite eval_noUplift, eval_contactMode, eval_sigma_min.
  destruct (mode_val (e_val env (N_of env B D H)) B); simpl;
    try discriminate.
  intro Hn. split; [reflexivity | now apply geb_true].
Qed.

(** X11.  A footing that passes has a finite maximum pressure within the
    allowable bearing pressure, is in contact with the ground, and reaches
    both required factors of safety; without the uplift allowance it is
    moreover in full contact, with a non-negative minimum pressure. *)
Theorem ok_means (env : Env) (B D H : Q) :
  let r := evalFoundation env B D H in
  ok r = true ->
  (exists s, sigma_max r = JS.Fin s /\ s / 1000 <= qa_allow_final r) /\
  contactMode r <> none /\
  reqFS_OT env <= FS_OT r /\
  reqFS_SL env <= FS_SL r /\
  (allowUpliftOK env = false -> contactMode r = full /\ 0 <= sigma_min r).
Proof.
  cbv zeta. rewrite eval_ok_split. intro Hok.
  apply andb_true_iff in Hok. destruct Hok as [Hok Hsl].
  apply andb_true_iff in Hok. destruct Hok as [Hbe Hot].
  rewrite eval_bearingOK in Hbe. rewrite eval_OT_OK in Hot.
  rewrite eval_SL_OK in Hsl. rewrite eval_qa.
  split; [|split; [|split; [|split]]].
  - destruct (sigma_max (evalFoundation env B D H)) as [s|] eqn:Es;
      [|discriminate Hbe].
    exists s. split; [reflexivity|]. now apply leb_true.
  - intro Hnone. rewrite eval_sigma_max in Hbe.
    rewrite eval_contactMode in Hnone. rewrite Hnone in Hbe.
    discriminate Hbe.
  - unfold OT_val in Hot. destruct (allowUpliftOK env).
    + now apply geb_true.
    + apply andb_true_iff in Hot. now apply geb_true.
  - now apply geb_true.
  - intro Hu. unfold OT_val in Hot. rewrite Hu in Hot.
    apply andb_true_iff in Hot. now apply noUplift_only_full.
Qed.

Lemma ok_means_witness :
  let r := evalFoundation Scenario.env_light 0.8 0.8 0.8 in
  ok r = true /\
  (exists s, sigma_max r = JS.Fin s /\ s / 1000 <= qa_allow_final r) /\
  contactMode r <> none.
Proof.
  cbv zeta.
  assert (Hok : ok (evalFoundation Scenario.env_light 0.8 0.8 0.8) = true)
    by reflexivity.
  destruct (ok_means Scenario.env_light 0.8 0.8 0.8 Hok) as (H1 & H2 & _).
  split; [exact Hok|]. split; assumption.
Defined.



End FootingVerdict.

(** ** Variations of the footing inputs *)
Section FootingVariations.
Import Foundation Variation.

Lemma ok_with_allowUplift env b B D H :
  ok (evalFoundation (with_allowUplift env b) B D H)
  = bearingOK (evalFoundation env B D H)
    && (if b
        then JS.geb (FS_OT (evalFoundation env B D H)) (reqFS_OT env)
        else JS.geb (FS_OT (evalFoundation env B D H)) (reqFS_OT env)
             && noUplift (evalFoundation env B D H))
    && SL_OK (evalFoundation env B D H).
Proof. destruct b; reflexivity. Qed.

(** X14.  Allowing uplift never turns a passing footing into a failing one:
    whatever passes with the allowance off passes with it on, all other
    inputs being the same. *)
Theorem allowing_uplift_keeps_ok (env : Env) (B D H : Q) :
  ok (evalFoundation (with_allowUplift env false) B D H) = true ->
  ok (evalFoundation (with_allowUplift env true) B D H) = true.
Proof.
  rewrite !ok_with_allowUplift. intro Hok.
  apply andb_true_iff in Hok. destruct Hok as [Hok Hsl].
  apply andb_true_iff in Hok. destruct Hok as [Hbe Hot].
  apply andb_true_iff in Hot. destruct Hot as [Hfs _].
  now rewrite Hbe, Hfs, Hsl.
Qed.

Lemma allowing_uplift_keeps_ok_witness :
  ok (evalFoundation (with_allowUplift Scenario.env_light false) 0.8 0.8 0.8) = true /\
  ok (evalFoundation (with_allowUplift Scenario.env_light true) 0.8 0.8 0.8) = true.
Proof.
  assert (H0 : ok (evalFoundation (with_allowUplift Scenario.env_light false)
                     0.8 0.8 0.8) = true) by reflexivity.
  split; [exact H0|].
  exact (allowing_uplift_keeps_ok Scenario.env_light 0.8 0.8 0.8 H0).
Defined.

Lemma z_of_nonneg env : 0 <= z_of env.
Proof. apply Q.le_max_l. Qed.

Lemma Pp_of_nonneg env D :
  0 <= D -> 0 <= soilUnitW env -> 0 <= etaPassive env -> 0 <= Pp_of env D.
Proof.
  intros HD Hs He. unfold Pp_of, Pp_raw_of, Kp.
  pose proof (z_of_nonneg env) as Hz.
  destruct (JS.gtb (z_of env) 0); [|lra].
  set (zv := z_of env) in *.
  assert (H1 : 0 <= soilUnitW env * D) by nra.
  assert (H2 : 0 <= zv * zv) by nra.
  assert (H3 : 0 <= soilUnitW env * D * (zv * zv)) by nra.
  nra.
Qed.

Lemma M_passive_of_nonneg env D :
  0 <= D -> 0 <= soilUnitW env -> 0 <= etaPassive env ->
  0 <= M_passive_of env D.
Proof.
  intros HD Hs He. unfold M_passive_of.
  pose proof (z_of_nonneg env) as Hz.
  pose proof (Pp_of_nonneg env D HD Hs He) as Hp.
  destruct (JS.gtb (z_of env) 0); [|lra].
  set (zv := z_of env) in *. set (pp := Pp_of env D) in *.
  assert (H3 : 0 <= zv / 3) by qlra. nra.
Qed.

Lemma eval_without_embed env B D H :
  let r0 := evalFoundation (with_embedDepth env 0) B D H in
  let r := evalFoundation env B D H in
  bearingOK r0 = bearingOK r /\
  noUplift r0 = noUplift r /\
  FS_OT r0 = (N r * leverArm_OT r + 0) / Qmax (Qabs (M env)) 1e-9 /\
  FS_OT r = (N r * leverArm_OT r + M_passive_of env D) / Qmax (Qabs (M env)) 1e-9 /\
  FS_SL r0 = (mu env * (N r * contactRatio_val B (b_eff r)) + 0 * etaPassive env)
             / Qmax (Fh env) 1e-9 /\
  FS_SL r = (mu env * (N r * contactRatio_val B (b_eff r)) + Pp_of env D)
            / Qmax (Fh env) 1e-9.
Proof. cbv zeta. repeat split; reflexivity. Qed.

(** X15.  Passive resistance only helps.  For a non-negative depth D, soil
    unit weight and reduction factor, the overturning and sliding factors of
    safety computed with the embedment are at least those computed with the
    embedment set to zero, and a footing that passes without embedment
    passes with it. *)
Theorem embedment_only_helps (env : Env) (B D H : Q) :
  0 <= D -> 0 <= soilUnitW env -> 0 <= etaPassive env ->
  let r0 := evalFoundation (with_embedDepth env 0) B D H in
  let r := evalFoundation env B D H in
  FS_OT r0 <= FS_OT r /\
  FS_SL r0 <= FS_SL r /\
  (ok r0 = true -> ok r = true).
Proof.
  intros HD Hs He. cbv zeta.
  destruct (eval_without_embed env B D H) as (Hb & Hn & Ho0 & Ho & Hs0 & Hs1).
  cbv zeta in Hb, Hn, Ho0, Ho, Hs0, Hs1.
  pose proof (M_passive_of_nonneg env D HD Hs He) as Hmp.
  pose proof (Pp_of_nonneg env D HD Hs He) as Hpp.
  assert (Hot : FS_OT (evalFoundation (with_embedDepth env 0) B D H)
                <= FS_OT (evalFoundation env B D H)).
  { rewrite Ho0, Ho. apply div_le_mono; [apply Qmax_floor_pos | lra]. }
  assert (Hsl : FS_SL (evalFoundation (with_embedDepth env 0) B D H)
                <= FS_SL (evalFoundation env B D H)).
  { rewrite Hs0, Hs1. apply div_le_mono; [apply Qmax_floor_pos|].
    apply Qplus_le_compat; [apply Qle_refl|].
    setoid_replace (0 * etaPassive env) with 0 by ring. exact Hpp. }
  split; [exact Hot|]. split; [exact Hsl|].
  rewrite !eval_ok_split, !eval_OT_OK, !eval_SL_OK, Hb, Hn.
  change (reqFS_SL (with_embedDepth env 0)) with (reqFS_SL env).
  unfold OT_val, SL_val.
  change (allowUpliftOK (with_embedDepth env 0)) with (allowUpliftOK env).
  change (reqFS_OT (with_embedDepth env 0)) with (reqFS_OT env).
  intro Hok.
  apply andb_true_iff in Hok. destruct Hok as [Hok Hsl0].
  apply andb_true_iff in Hok. destruct Hok as [Hbe Hot0].
  apply geb_true in Hsl0.
  assert (Hsl1 : JS.geb (FS_SL (evalFoundation env B D H)) (reqFS_SL env) = true)
    by (apply geb_true; exact (Qle_trans _ _ _ Hsl0 Hsl)).
  rewrite Hbe, Hsl1.
  destruct (allowUpliftOK env).
  - apply geb_true in Hot0.
    assert (Hfs1 : JS.geb (FS_OT (evalFoundation env B D H)) (reqFS_OT env) = true)
      by (apply geb_true; exact (Qle_trans _ _ _ Hot0 Hot)).
    now rewrite Hfs1.
  - apply andb_true_iff in Hot0. destruct Hot0 as [Hfs Hnu].
    apply geb_true in Hfs.
    assert (Hfs1 : JS.geb (FS_OT (evalFoundation env B D H)) (reqFS_OT env) = true)
      by (apply geb_true; exact (Qle_trans _ _ _ Hfs Hot)).
    now rewrite Hfs1, Hnu.
Qed.

Lemma embedment_only_helps_witness :
  let env := Scenario.env_light in
  let r0 := evalFoundation (with_embedDepth env 0) 0.8 0.8 0.8 in
  let r := evalFoundation env 0.8 0.8 0.8 in
  0 <= 0.8 /\ 0 <= soilUnitW env /\ 0 <= etaPassive env /\
  FS_OT r0 <= FS_OT r /\ FS_SL r0 <= FS_SL r.
Proof.
  cbv zeta.
  assert (H1 : 0 <= 0.8) by discriminate.
  assert (H2 : 0 <= soilUnitW Scenario.env_light) by discriminate.
  assert (H3 : 0 <= etaPassive Scenario.env_light) by discriminate.
  destruct (embedment_only_helps Scenario.env_light 0.8 0.8 0.8 H1 H2 H3)
    as (Ha & Hb & _).
  repeat split; assumption.
Defined.

End FootingVariations.
(** ** The loops of the search and what it stores *)
Section SearchFacts.
Import PrimFloat Foundation64 Optimizer.
Local Open Scope float_scope.

Lemma length_flat_map_const {A X : Type} (g : A -> list X) (l : list A) (n : nat) :
  (forall a, List.length (g a) = n) ->
  List.length (flat_map g l) = (List.length l * n)%nat.
Proof.
  intro Hg. induction l as [|a l IH]; simpl; [reflexivity|].
  now rewrite length_app, Hg, IH.
Qed.

(** X16.  The three loops stop by their own test, however many more
    iterations are allowed: 28 values of B and of D and 32 values of H are
    visited, so that 28 x 28 x 32 = 25088 candidates are enumerated; every
    visited value is below 2.0, and the value after the last one is above
    it. *)
Theorem grid_loops_stop (k : nat) :
  for_range (28 + k) 0.6 2.0 0.05 = Bs /\
  for_range (32 + k) 0.4 2.0 0.05 = Hs /\
  Ds = Bs /\
  List.length Bs = 28%nat /\
  List.length Hs = 32%nat /\
  List.length grid = (28 * 28 * 32)%nat /\
  forallb (fun x => x <? 2) Bs = true /\
  forallb (fun x => x <? 2) Hs = true /\
  (2 <? last Bs 0 + 0.05) = true /\
  (2 <? last Hs 0 + 0.05) = true.
Proof.
  assert (HB : List.length Bs = 28%nat) by (vm_compute; reflexivity).
  assert (HD : List.length Ds = 28%nat) by (vm_compute; reflexivity).
  assert (HH : List.length Hs = 32%nat) by (vm_compute; reflexivity).
  split; [vm_compute; destruct k; reflexivity|].
  split; [vm_compute; destruct k; reflexivity|].
  split; [reflexivity|].
  split; [exact HB|]. split; [exact HH|].
  split.
  { unfold grid.
    rewrite (length_flat_map_const _ Bs (28 * 32)); [now rewrite HB|].
    intro B.
    rewrite (length_flat_map_const _ Ds 32); [now rewrite HD|].
    intro D. rewrite length_map. exact HH. }
  repeat split; vm_compute; reflexivity.
Qed.

(** X17.  What [setFootB], [setFootD] and [setFootH] store is the visited
    value rounded to two decimals: 0.6, 0.65, ..., 1.95 for B and D and
    0.4, 0.45, ..., 1.95 for H.  Only the first two values of B and D and
    the first four of H are such numbers; every later one is changed by
    the rounding.  The stored footing can fail where the candidate passed:
    for a footing with no panel weight, no cover and no embedment under a
    design force of 2304 N, the search adopts the candidate with
    H = 0.8000000000000003, whose sliding factor is 1.5000000000000004,
    and stores H = 0.8, for which the factor is 1.4999999999999998. *)
Theorem stored_footing_is_rounded :
  map F64.toFixed2 Bs
  = [0.6; 0.65; 0.7; 0.75; 0.8; 0.85; 0.9; 0.95; 1; 1.05; 1.1; 1.15; 1.2;
     1.25; 1.3; 1.35; 1.4; 1.45; 1.5; 1.55; 1.6; 1.65; 1.7; 1.75; 1.8; 1.85;
     1.9; 1.95] /\
  map F64.toFixed2 Hs
  = [0.4; 0.45; 0.5; 0.55; 0.6; 0.65; 0.7; 0.75; 0.8; 0.85; 0.9; 0.95; 1;
     1.05; 1.1; 1.15; 1.2; 1.25; 1.3; 1.35; 1.4; 1.45; 1.5; 1.55; 1.6; 1.65;
     1.7; 1.75; 1.8; 1.85; 1.9; 1.95] /\
  filter (fun x => F64.toFixed2 x =? x) Bs = [0.6; 0.65] /\
  filter (fun x => F64.toFixed2 x =? x) Hs = [0.4; 0.45; 0.5; 0.55] /\
  (let env := Scenario64.env_round in
   let c := (0.6, 0.6, 0.80000000000000027) in
   In c grid /\
   step4 "freestanding" env = Adopted c /\
   footing_after (Adopted c) DEFAULT_FOOT = (0.6, 0.6, 0.8) /\
   passes env c = true /\
   FS_SL (eval env c) = 1.5000000000000004 /\
   passes env (setFoot c) = false /\
   FS_SL (eval env (setFoot c)) = 1.4999999999999998).
Proof.
  split; [vm_compute; reflexivity|].
  split; [vm_compute; reflexivity|].
  split; [vm_compute; reflexivity|].
  split; [vm_compute; reflexivity|].
  cbv zeta.
  split; [apply (nth_error_In grid 8); vm_compute; reflexivity|].
  repeat split; vm_compute; reflexivity.
Qed.

(** X18.  For a free-standing sign the search always ends with a footing,
    and for every other sign type it leaves the footing alone.  A footing
    is adopted as passing only if it is the default footing or a visited
    candidate and its own evaluation returned [ok]; a best-effort footing
    is a visited candidate, and it is reported only when the evaluation of
    the default footing and of every visited candidate failed. *)
Theorem search_outcome (signType : string) (env : Env) :
  match step4 signType env with
  | Adopted b =>
      signType = "freestanding"%string /\
      passes env b = true /\ (b = DEFAULT_FOOT \/ In b grid)
  | BestEffort b =>
      signType = "freestanding"%string /\
      In b grid /\
      passes env DEFAULT_FOOT = false /\
      forall c, In c grid -> passes env c = false
  | Unchanged => signType <> "freestanding"%string
  end.
Proof.
  unfold step4.
  destruct (String.eqb signType "freestanding") eqn:E.
  - apply String.eqb_eq in E.
    pose proof (search_sound env) as Hs.
    destruct (search env) as [b|b|].
    + split; [exact E | exact Hs].
    + split; [exact E | exact Hs].
    + destruct Hs.
  - intro Heq. rewrite Heq, String.eqb_refl in E. discriminate E.
Qed.

(** X25.  When the search adopts a visited candidate, that candidate
    passes, its objective is strictly below the seed 0.8 x 100 + 0.8 x 10 +
    0.8 (or 0.8 x 0.8 x 0.8 in volume mode) if the default footing
    passes, no visited candidate that passes has a smaller objective, and
    none visited earlier has one as small: the first minimum wins.  When
    it adopts the default footing instead, the default footing passes and
    no visited candidate that passes has an objective below the seed.
    All comparisons are those of the program, on doubles. *)
Theorem search_adopts_first_minimum (env : Env) (b : Cand) :
  search env = Adopted b ->
  (b = DEFAULT_FOOT /\
   passes env DEFAULT_FOOT = true /\
   forall c, In c grid -> passes env c = true ->
             (score env c <? bestScore (init_best env)) = false)
  \/
  (passes env b = true /\
   (passes env DEFAULT_FOOT = true ->
    (score env b <? bestScore (init_best env)) = true) /\
   exists pre post,
     grid = pre ++ b :: post /\
     (forall c, In c pre -> passes env c = true ->
                (score env c <=? score env b) = false) /\
     (forall c, In c post -> passes env c = true ->
                (score env c <? score env b) = false)).
Proof.
  unfold search. cbv zeta. rewrite !grid_fold_flat.
  pose proof (pass_loop_spec env grid (init_best env)) as Hspec.
  cbv zeta in Hspec.
  set (st := fold_left (pass_step env) grid (init_best env)) in *.
  clearbody st.
  destruct Hspec as [(Hst & _ & Hseed)
                    | (Hf & _ & Hp & Hlt & pre & post & Hl & Hpre & Hpost)].
  - destruct (found st) eqn:F.
    + intro Hb. injection Hb as Hb. rewrite Hst in F, Hb.
      left. split; [symmetry; exact Hb|].
      split; [rewrite <- init_found; exact F | exact (Hseed F)].
    + destruct (fold_left (near_step env) grid None);
        intro Hb; discriminate Hb.
  - rewrite Hf. intro Hb. injection Hb as Hb. subst b.
    right. split; [exact Hp|].
    split; [rewrite <- init_found; exact Hlt|].
    exists pre, post. split; [exact Hl|]. split; [exact Hpre | exact Hpost].
Qed.

Lemma search_adopts_first_minimum_witness :
  let env := Scenario64.env_round in
  let b := (0.6, 0.6, 0.80000000000000027) in
  search env = Adopted b /\
  passes env DEFAULT_FOOT = true /\
  (score env b <? bestScore (init_best env)) = true /\
  exists pre post,
    grid = pre ++ b :: post /\
    (forall c, In c pre -> passes env c = true ->
               (score env c <=? score env b) = false) /\
    (forall c, In c post -> passes env c = true ->
               (score env c <? score env b) = false).
Proof.
  cbv zeta.
  assert (Hsearch : search Scenario64.env_round
                    = Adopted (0.6, 0.6, 0.80000000000000027))
    by (vm_compute; reflexivity).
  assert (Hd : passes Scenario64.env_round DEFAULT_FOOT = true)
    by (vm_compute; reflexivity).
  split; [exact Hsearch|]. split; [exact Hd|].
  destruct (search_adopts_first_minimum Scenario64.env_round _ Hsearch)
    as [(Hb & _) | (_ & Hlt & Hex)].
  - apply (f_equal (fun c => cB c <? 0.7)) in Hb. vm_compute in Hb.
    discriminate Hb.
  - split; [exact (Hlt Hd) | exact Hex].
Defined.

(** X26.  When no footing passes, the best-effort candidate is the first
    visited candidate of greatest rescue score
    min(FS_OT / required, FS_SL / required, 1000 qa / sigma_max) x 100000
    - size penalty: no visited candidate has a greater score, and none
    visited earlier has one as great.  All comparisons are those of the
    program, on doubles. *)
Theorem search_rescue_first_maximum (env : Env) (b : Cand) :
  search env = BestEffort b ->
  exists pre post,
    grid = pre ++ b :: post /\
    (forall c, In c pre ->
               (near_score env b <=? near_score env c) = false) /\
    (forall c, In c post ->
               (near_score env b <? near_score env c) = false).
Proof.
  unfold search. cbv zeta. rewrite !grid_fold_flat.
  destruct (found (fold_left (pass_step env) grid (init_best env)));
    [intro Hb; discriminate Hb|].
  pose proof (near_loop_spec env grid) as Hnear.
  destruct (fold_left (near_step env) grid None) as [n|];
    [|intro Hb; discriminate Hb].
  intro Hb. injection Hb as Hb. subst b.
  destruct Hnear as (_ & pre & post & Hl & Hpre & Hpost).
  exists pre, post. split; [exact Hl|]. split; [exact Hpre | exact Hpost].
Qed.

Lemma search_rescue_first_maximum_witness :
  let env := Scenario64.env_upper in
  let b := (last Bs 0, last Ds 0, last Hs 0) in
  search env = BestEffort b /\
  forall c, In c grid -> (near_score env b <? near_score env c) = false.
Proof.
  cbv zeta.
  assert (Hsearch : search Scenario64.env_upper
                    = BestEffort (last Bs 0, last Ds 0, last Hs 0))
    by (vm_compute; reflexivity).
  split; [exact Hsearch|].
  destruct (search_rescue_first_maximum Scenario64.env_upper _ Hsearch)
    as (pre & post & Hl & Hpre & Hpost).
  intros c Hc. rewrite Hl in Hc. apply in_app_or in Hc.
  destruct Hc as [Hc | [Hc | Hc]].
  - specialize (Hpre c Hc).
    destruct (near_score Scenario64.env_upper (last Bs 0, last Ds 0, last Hs 0)
              <? near_score Scenario64.env_upper c) eqn:E; [|reflexivity].
    rewrite <- Hpre. symmetry. exact (f64_ltb_leb _ _ E).
  - subst c. apply f64_ltb_irrefl.
  - exact (Hpost c Hc).
Defined.

End SearchFacts.

(** ** Automatic anchor selection *)
Section AutoAnchorSelection.
Import Anchor AutoAnchor.

Lemma insert_in (a x : AnchorSpec) (l : list AnchorSpec) :
  In x (insert_by_Ta a l) <-> x = a \/ In x l.
Proof.
  induction l as [|b l IH]; simpl.
  - split; intros [H|H]; auto; contradiction.
  - destruct (JS.ltb (Ta a) (Ta b)); simpl.
    + split; intros [H|H]; auto.
    + rewrite IH. split; intros [H|[H|H]]; auto.
Qed.

Lemma insert_sorted (a : AnchorSpec) (l : list AnchorSpec) :
  StronglySorted le_Ta l ->
  StronglySorted le_Ta (insert_by_Ta a l).
Proof.
  induction 1 as [|b l Hs IH Hb]; simpl.
  - constructor; constructor.
  - destruct (JS.ltb (Ta a) (Ta b)) eqn:E.
    + apply ltb_true in E. constructor; [constructor; assumption|].
      constructor; [apply Qlt_le_weak; exact E|].
      rewrite Forall_forall in Hb |- *. intros y Hy.
      unfold le_Ta in *. specialize (Hb y Hy). lra.
    + apply ltb_false in E. constructor; [exact IH|].
      rewrite Forall_forall in Hb |- *. intros y Hy.
      apply insert_in in Hy. destruct Hy as [Hy|Hy];
        [subst y; exact E | now apply Hb].
Qed.

Lemma sort_acc_spec (l acc : list AnchorSpec) :
  StronglySorted le_Ta acc ->
  StronglySorted le_Ta
    (fold_left (fun acc a => insert_by_Ta a acc) l acc) /\
  forall x, In x (fold_left (fun acc a => insert_by_Ta a acc) l acc)
            <-> In x l \/ In x acc.
Proof.
  revert acc. induction l as [|a l IH]; intros acc Hs; simpl.
  - split; [exact Hs|]. intro x. split; [auto | intros [[]|H]; exact H].
  - destruct (IH (insert_by_Ta a acc) (insert_sorted a acc Hs)) as [H1 H2].
    split; [exact H1|]. intro x. rewrite H2, insert_in.
    split; [intros [H|[H|H]] | intros [[H|H]|H]]; auto.
Qed.

Lemma sort_by_Ta_spec (l : list AnchorSpec) :
  StronglySorted le_Ta (sort_by_Ta l) /\
  forall x, In x (sort_by_Ta l) <-> In x l.
Proof.
  destruct (sort_acc_spec l [] (SSorted_nil le_Ta)) as [H1 H2].
  split; [exact H1|]. intro x. unfold sort_by_Ta. rewrite H2.
  split; [intros [H|[]]; exact H | auto].
Qed.

Lemma sorted_after (pre post : list AnchorSpec) (x : AnchorSpec) :
  StronglySorted le_Ta (pre ++ x :: post) ->
  forall y, In y post -> Ta x <= Ta y.
Proof.
  induction pre as [|b pre IH]; simpl; intros Hs y Hy.
  - apply StronglySorted_inv in Hs. destruct Hs as [_ Hf].
    rewrite Forall_forall in Hf. now apply Hf.
  - apply StronglySorted_inv in Hs. destruct Hs as [Hs _].
    now apply IH.
Qed.

Lemma etaA_any_qty (i : Inputs) (ac : AnchorSpec) (q : Q) :
  etaA i ac q = etaA i ac 4.
Proof. reflexivity. Qed.

Lemma pick_qty_spec (i : Inputs) (ac : AnchorSpec) :
  pick_qty i ac = if JS.num_ltb (etaA i ac 4) 1 then Some 4 else None.
Proof.
  unfold pick_qty, qtyCandidates. cbn [find].
  rewrite !(etaA_any_qty i ac 6), !(etaA_any_qty i ac 8),
    !(etaA_any_qty i ac 10).
  now destruct (JS.num_ltb (etaA i ac 4) 1).
Qed.

Lemma select_spec (i : Inputs) (cands : list AnchorSpec) (dflt : Pick) :
  (select i cands dflt = dflt /\
   forall ac, In ac cands -> acceptable i ac = false)
  \/
  (exists pre ac post,
     cands = pre ++ ac :: post /\
     acceptable i ac = true /\
     (forall a, In a pre -> acceptable i a = false) /\
     select i cands dflt
     = {| bestAnchor := ac; bestQty := 4; bestEmbed := hef_try i ac;
          foundAnchorOK := true |}).
Proof.
  induction cands as [|c cands IH]; cbn [select].
  - left. split; [reflexivity | intros ac []].
  - rewrite pick_qty_spec.
    destruct (edgesOK i c) eqn:Ee; cbn [negb];
      [destruct (JS.num_ltb (etaA i c 4) 1) eqn:Er|].
    + right. exists [], c, cands. split; [reflexivity|].
      split; [unfold acceptable; now rewrite Ee, Er|].
      split; [intros a [] | reflexivity].
    + destruct IH as [(Hs & Hn) | (pre & ac & post & Hl & Ha & Hp & Hs)].
      * left. split; [exact Hs|]. intros a [Ha|Ha]; [|now apply Hn].
        subst a. unfold acceptable. now rewrite Ee, Er.
      * right. exists (c :: pre), ac, post. split; [now rewrite Hl|].
        split; [exact Ha|]. split; [|exact Hs].
        intros a [Hc|Hc]; [|now apply Hp].
        subst a. unfold acceptable. now rewrite Ee, Er.
    + destruct IH as [(Hs & Hn) | (pre & ac & post & Hl & Ha & Hp & Hs)].
      * left. split; [exact Hs|]. intros a [Ha|Ha]; [|now apply Hn].
        subst a. unfold acceptable. now rewrite Ee.
      * right. exists (c :: pre), ac, post. split; [now rewrite Hl|].
        split; [exact Ha|]. split; [|exact Hs].
        intros a [Hc|Hc]; [|now apply Hp].
        subst a. unfold acceptable. now rewrite Ee.
Qed.

Lemma Qmax_self (x : Q) : Qmax x x = x.
Proof. unfold Qmax, GenericMinMax.gmax. now destruct (x ?= x). Qed.

Lemma hefOK_max (s : string) (a : AnchorSpec) (e0 : Q) :
  hefOK s a (Qmax e0 (hefReq s a)) = true.
Proof. unfold hefOK. apply geb_true. apply Q.le_max_r. Qed.

(** X19.  After the automatic anchor selection the embedment check holds,
    whether or not an anchor was found.  An anchor is found exactly when
    some catalogue anchor meets the edge and spacing minima with an
    interaction ratio below 1; the quantity stored is then 4 (the
    quantities 6, 8 and 10 are never selected), and when no anchor is found
    the anchor and the quantity are left as they were. *)
Theorem autoAnchor_quantity_and_embedment (i : Inputs) :
  let r := autoAnchor i in
  hefOK (signType i) (anchor' r) (anchorEmbed' r) = true /\
  (foundAnchorOK (autoPick i) = true <->
   exists ac, In ac (anchorsForUI i) /\ acceptable i ac = true) /\
  (foundAnchorOK (autoPick i) = true -> anchorQty' r = 4) /\
  (foundAnchorOK (autoPick i) = false ->
   anchorQty' r = anchorQty i /\ anchor' r = anchor i).
Proof.
  cbv zeta. unfold autoAnchor, autoPick. cbv zeta.
  set (dflt := {| bestAnchor := anchor i; bestQty := anchorQty i;
                  bestEmbed := anchorEmbed i; foundAnchorOK := false |}).
  cbn [anchor' anchorQty' anchorEmbed'].
  split; [apply hefOK_max|].
  destruct (sort_by_Ta_spec (anchorsForUI i)) as [_ Hperm].
  destruct (select_spec i (sort_by_Ta (anchorsForUI i)) dflt)
    as [(Hs & Hn) | (pre & ac & post & Hl & Ha & _ & Hs)]; rewrite Hs.
  - cbn [dflt foundAnchorOK bestQty bestAnchor].
    split; [split|split].
    + intro Hf. discriminate Hf.
    + intros (a0 & Hin0 & Hacc0).
      rewrite (Hn a0 (proj2 (Hperm a0) Hin0)) in Hacc0. discriminate Hacc0.
    + intro Hf. discriminate Hf.
    + intros _. split; reflexivity.
  - cbn [foundAnchorOK bestQty bestAnchor].
    split; [split|split].
    + intros _. exists ac. split; [|exact Ha].
      apply Hperm. rewrite Hl. apply in_or_app. right. left. reflexivity.
    + intros _. reflexivity.
    + intros _. reflexivity.
    + intro Hf. discriminate Hf.
Qed.

Lemma autoAnchor_quantity_and_embedment_witness :
  let i := Scenario2.auto_inputs in
  let j := Scenario2.auto_inputs_tight in
  (foundAnchorOK (autoPick i) = true /\
   anchorQty i = 8 /\ anchorQty' (autoAnchor i) = 4) /\
  (foundAnchorOK (autoPick j) = false /\
   anchorQty' (autoAnchor j) = anchorQty j /\
   anchor' (autoAnchor j) = anchor j).
Proof.
  cbv zeta.
  assert (Hi : foundAnchorOK (autoPick Scenario2.auto_inputs) = true)
    by reflexivity.
  assert (Hj : foundAnchorOK (autoPick Scenario2.auto_inputs_tight) = false)
    by reflexivity.
  split.
  - split; [exact Hi|]. split; [reflexivity|].
    exact (proj1 (proj2 (proj2
             (autoAnchor_quantity_and_embedment Scenario2.auto_inputs))) Hi).
  - split; [exact Hj|].
    exact (proj2 (proj2 (proj2
             (autoAnchor_quantity_and_embedment Scenario2.auto_inputs_tight)))
             Hj).
Defined.

Lemma Ta_conc_or_num (i : Inputs) (h : Q) :
  Ta_conc i (JS.or_num h 0) = Ta_conc i h.
Proof.
  unfold JS.or_num. destruct (Qeq_bool h 0) eqn:E; [|reflexivity].
  apply Qeq_bool_eq in E. unfold Ta_conc. cbv zeta.
  assert (H0 : JS.gtb 0 0 = false) by reflexivity.
  assert (Hh : JS.gtb h 0 = false) by (apply gtb_false; rewrite E; apply Qle_refl).
  rewrite H0, Hh. now rewrite !andb_false_r.
Qed.

Lemma verify_eta_of_pick (i : Inputs) (ac : AnchorSpec) :
  verify_eta i ac 4 (Qmax (hef_try i ac) (hef_try i ac)) = etaA i ac 4.
Proof.
  unfold verify_eta. cbv zeta. rewrite Qmax_self, Ta_conc_or_num.
  reflexivity.
Qed.

(** X20.  When some catalogue anchor satisfies the edge and spacing minima
    and has an interaction ratio below 1 with the shear divided by 4, the
    automatic selection stores such an anchor, of the smallest steel tension
    capacity among them, and the verification that follows (with the stored
    anchor, quantity and embedment) finds the anchor ratio below 1. *)
Theorem autoAnchor_pick_passes (i : Inputs) :
  (exists ac, In ac (anchorsForUI i) /\ acceptable i ac = true) ->
  let r := autoAnchor i in
  In (anchor' r) (anchorsForUI i) /\
  acceptable i (anchor' r) = true /\
  (forall ac, In ac (anchorsForUI i) -> acceptable i ac = true ->
              Ta (anchor' r) <= Ta ac) /\
  JS.num_ltb (verify_eta i (anchor' r) (anchorQty' r) (anchorEmbed' r)) 1 = true.
Proof.
  intros (a0 & Hin0 & Hacc0). cbv zeta. unfold autoAnchor. cbv zeta.
  set (dflt := {| bestAnchor := anchor i; bestQty := anchorQty i;
                  bestEmbed := anchorEmbed i; foundAnchorOK := false |}).
  destruct (sort_by_Ta_spec (anchorsForUI i)) as [Hsorted Hperm].
  destruct (select_spec i (sort_by_Ta (anchorsForUI i)) dflt)
    as [(_ & Hn) | (pre & ac & post & Hl & Ha & Hp & Hs)].
  - rewrite (Hn a0 (proj2 (Hperm a0) Hin0)) in Hacc0. discriminate Hacc0.
  - rewrite Hs. cbn [anchor' anchorQty' anchorEmbed' bestAnchor bestQty bestEmbed].
    fold (hef_try i ac).
    split; [apply Hperm; rewrite Hl; apply in_or_app; right; now left|].
    split; [exact Ha|]. split.
    + intros b Hb Hab. apply Hperm in Hb. rewrite Hl in Hb, Hsorted.
      apply in_app_or in Hb. destruct Hb as [Hb|[Hb|Hb]].
      * rewrite (Hp b Hb) in Hab. discriminate Hab.
      * subst b. apply Qle_refl.
      * exact (sorted_after pre post ac Hsorted b Hb).
    + rewrite verify_eta_of_pick.
      unfold acceptable in Ha. apply andb_true_iff in Ha. exact (proj2 Ha).
Qed.

Lemma autoAnchor_pick_passes_witness :
  let i := Scenario2.auto_inputs in
  let r := autoAnchor i in
  (exists ac, In ac (anchorsForUI i) /\ acceptable i ac = true) /\
  name (anchor' r) = "M16 ABR"%string /\
  anchorQty' r = 4 /\
  JS.num_ltb (verify_eta i (anchor' r) (anchorQty' r) (anchorEmbed' r)) 1 = true.
Proof.
  cbv zeta.
  assert (Hex : exists ac, In ac (anchorsForUI Scenario2.auto_inputs) /\
                           acceptable Scenario2.auto_inputs ac = true).
  { exists (Config.mkAnchor "M16 ABR" 16 36900 21300 None None (Some (16 * 20))).
    split; [left; reflexivity | reflexivity]. }
  split; [exact Hex|]. split; [reflexivity|]. split; [reflexivity|].
  exact (proj2 (proj2 (proj2 (autoAnchor_pick_passes Scenario2.auto_inputs Hex)))).
Defined.

End AutoAnchorSelection.

(** ** Catalogue import and configuration import *)
Section Imports.
Import Anchor Config Catalog.

Lemma rows_of_in (l : list (option RawRow)) (a : AnchorSpec) :
  In a (rows_of l) <-> exists o, In o l /\ row_of o = Some a.
Proof.
  induction l as [|o l IH]; simpl.
  - split; [intros [] | intros (o & [] & _)].
  - destruct (row_of o) as [b|] eqn:E; simpl; rewrite IH.
    + split.
      * intros [H|(o' & Ho & Hr)];
          [subst b; exists o; auto | exists o'; auto].
      * intros (o' & [Ho|Ho] & Hr).
        -- subst o'. rewrite E in Hr. injection Hr as Hr. now left.
        -- right. exists o'. auto.
    + split.
      * intros (o' & Ho & Hr). exists o'. auto.
      * intros (o' & [Ho|Ho] & Hr).
        -- subst o'. rewrite E in Hr. discriminate Hr.
        -- exists o'. auto.
Qed.

Lemma row_of_fields (o : option RawRow) (a : AnchorSpec) :
  row_of o = Some a ->
  exists r, o = Some r /\
            r_name r = Some (name a) /\ r_d r = Some (d a) /\
            r_Ta r = Some (Ta a) /\ r_Va r = Some (Va a) /\
            min_e a = r_min_e r /\ min_s a = r_min_s r /\
            hefRec a = r_hefRec r.
Proof.
  destruct o as [r|]; [|discriminate]. simpl.
  destruct (r_name r) as [n|] eqn:En; [|discriminate].
  destruct (r_d r) as [dv|] eqn:Ed; [|discriminate].
  destruct (r_Ta r) as [tv|] eqn:Et; [|discriminate].
  destruct (r_Va r) as [vv|] eqn:Ev; [|discriminate].
  intro H. injection H as H. subst a. exists r. simpl.
  repeat split; first [assumption | reflexivity].
Qed.

(** X21.  An anchor catalogue is rejected exactly when none of its elements
    is an object with a name and finite diameter, tension and shear
    capacities; otherwise the stored catalogue consists of the well-formed
    elements, in file order, each with the fields of its element, and the
    malformed ones are dropped. *)
Theorem import_anchors_rows (st : State) (l : list (option RawRow)) :
  (handleImportAnchors st (Some l) = inr NoValidRow <->
   forall o, In o l -> row_of o = None) /\
  (forall st', handleImportAnchors st (Some l) = inl st' ->
     anchors st' = rows_of l /\
     anchors st' <> [] /\
     forall a, In a (anchors st') <->
               exists r, In (Some r) l /\
                 r_name r = Some (name a) /\ r_d r = Some (d a) /\
                 r_Ta r = Some (Ta a) /\ r_Va r = Some (Va a) /\
                 min_e a = r_min_e r /\ min_s a = r_min_s r /\
                 hefRec a = r_hefRec r).
Proof.
  unfold handleImportAnchors.
  pose proof (rows_of_in l) as Hin.
  destruct (rows_of l) as [|r0 rest] eqn:E.
  - split.
    + split; [|reflexivity]. intros _ o Ho.
      destruct (row_of o) as [a|] eqn:Er; [|reflexivity].
      destruct (proj2 (Hin a) (ex_intro _ o (conj Ho Er))).
    + intros st' H. discriminate H.
  - split.
    + split.
      * destruct (negb (isFreestanding (signType st))); intro H; discriminate H.
      * intro Hnone. destruct (proj1 (Hin r0) (or_introl eq_refl)) as (o & Ho & Hr).
        rewrite (Hnone o Ho) in Hr. discriminate Hr.
    + intros st' H.
      assert (Ha : anchors st' = r0 :: rest).
      { destruct (negb (isFreestanding (signType st)));
          injection H as H; subst st'; reflexivity. }
      rewrite Ha. split; [reflexivity|]. split; [discriminate|].
      intro a. rewrite Hin. split.
      * intros (o & Ho & Hr).
        destruct (row_of_fields o a Hr) as (r & Hor & Hf).
        subst o. exists r. split; [exact Ho | exact Hf].
      * intros (r & Hr & Hn & Hd & Ht & Hv & He & Hs & Hh).
        exists (Some r). split; [exact Hr|].
        simpl. rewrite Hn, Hd, Ht, Hv.
        destruct a as [an ad at_ av ae as_ ah]. simpl in *.
        now rewrite He, Hs, Hh.
Qed.

Lemma import_anchors_rows_witness :
  exists st',
    handleImportAnchors Scenario2.wall_state (Some Scenario2.anchors_file) = inl st' /\
    anchors st' = rows_of Scenario2.anchors_file /\
    anchors st' <> [] /\
    map name (anchors st') = ["HX-20"%string].
Proof.
  eexists. split; [reflexivity|].
  match goal with
  | |- anchors ?s = _ /\ _ =>
      destruct (proj2 (import_anchors_rows Scenario2.wall_state
                         Scenario2.anchors_file) s eq_refl) as (H1 & H2 & _)
  end.
  split; [exact H1|]. split; [exact H2 | reflexivity].
Defined.

Lemma find_self_first (r0 : AnchorSpec) (rest : list AnchorSpec) :
  find (fun a => String.eqb (name a) (name r0)) (r0 :: rest) = Some r0.
Proof. cbn [find]. now rewrite String.eqb_refl. Qed.

Lemma syncAnchor_keeps (st : State) (pick first : AnchorSpec) (rest : list AnchorSpec) :
  anchorsForUI st = first :: rest ->
  anchor st = pick ->
  find (fun a => String.eqb (name a) (name pick)) (anchorsForUI st) = Some pick ->
  signType (syncAnchor st) = signType st /\
  anchors (syncAnchor st) = anchors st /\
  anchor (syncAnchor st) = pick /\
  hefOK (signType st) pick (anchorEmbed (syncAnchor st)) = true.
Proof.
  intros Hl Ha Hf. unfold syncAnchor. rewrite Ha, Hf, Hl.
  rewrite String.eqb_refl. cbn [negb].
  cbn [signType anchors anchor anchorEmbed setAnchorEmbed].
  split; [reflexivity|]. split; [reflexivity|]. split; [exact Ha|].
  apply hefOK_max.
Qed.

Lemma syncAnchor_fields (st : State) :
  signType (syncAnchor st) = signType st /\
  anchors (syncAnchor st) = anchors st /\
  (In (name (anchor st)) (map name (anchorsForUI st)) ->
   anchor (syncAnchor st) = anchor st).
Proof.
  unfold syncAnchor.
  destruct (anchorsForUI st) as [|first restA] eqn:El;
    [repeat split; reflexivity|].
  set (lst := first :: restA) in *.
  destruct (find (fun a => String.eqb (name a) (name (anchor st))) lst)
    as [a|] eqn:Efind.
  - apply find_some in Efind. destruct Efind as [_ Hn]. cbv beta in Hn.
    rewrite Hn. cbn [negb signType anchors anchor setAnchorEmbed].
    repeat split; reflexivity.
  - destruct (negb (String.eqb (name first) (name (anchor st))));
      cbn [signType anchors anchor setAnchorEmbed setAnchor];
      (split; [reflexivity|]; split; [reflexivity|]);
      intro Hin; exfalso;
      apply in_map_iff in Hin; destruct Hin as (a & Hna & Ha);
      pose proof (find_none _ _ Efind a Ha) as Hno; cbv beta in Hno;
      rewrite Hna, String.eqb_refl in Hno; discriminate Hno.
Qed.

(** X22.  Importing a catalogue into a sign that is not free-standing
    selects the first well-formed row and leaves the embedment check
    satisfied; importing it into a free-standing sign stores the catalogue
    but neither the handler nor the following effect replaces an anchor
    whose name is in the regulated catalogue. *)
Theorem import_anchors_selection (st : State) (l : list (option RawRow))
  (st' : State) :
  importAnchors st (Some l) = inl st' ->
  anchors st' = rows_of l /\
  signType st' = signType st /\
  (isFreestanding (signType st) = false ->
   hd_error (rows_of l) = Some (anchor st') /\
   hefOK (signType st') (anchor st') (anchorEmbed st') = true) /\
  (isFreestanding (signType st) = true ->
   In (name (anchor st)) (map name ABR_ANCHORS) ->
   anchor st' = anchor st).
Proof.
  unfold importAnchors, handleImportAnchors.
  destruct (rows_of l) as [|r0 rest] eqn:E; [discriminate|].
  destruct (isFreestanding (signType st)) eqn:Ef; cbn [negb];
    intro H; injection H as H; subst st'.
  - (* free-standing: the effect looks the anchor up in the regulated list *)
    set (s1 := setAnchors st (r0 :: rest)).
    destruct (syncAnchor_fields s1) as (H1 & H2 & H3).
    rewrite H1, H2.
    split; [reflexivity|]. split; [reflexivity|].
    split; [intro Hc; discriminate Hc|].
    intros _ Hin. apply H3.
    unfold anchorsForUI, s1. cbn [signType anchors anchor setAnchors].
    rewrite Ef. exact Hin.
  - (* other types: the first row is selected *)
    set (s1 := setAnchorEmbed (setAnchor (setAnchors st (r0 :: rest)) r0)
                 (hefRec_or r0 (d r0 * 10))).
    assert (Hui : anchorsForUI s1 = r0 :: rest)
      by (unfold anchorsForUI, s1; cbn [signType anchors setAnchorEmbed setAnchor setAnchors];
          now rewrite Ef).
    destruct (syncAnchor_keeps s1 r0 r0 rest Hui eq_refl) as (H1 & H2 & H3 & H4).
    { rewrite Hui. apply find_self_first. }
    rewrite H1, H2, H3.
    split; [reflexivity|]. split; [reflexivity|].
    split; [|intro Hc; discriminate Hc].
    intros _. split; [reflexivity | exact H4].
Qed.

Lemma import_anchors_selection_witness :
  exists st',
    importAnchors Scenario2.wall_state (Some Scenario2.anchors_file) = inl st' /\
    isFreestanding (signType Scenario2.wall_state) = false /\
    name (anchor st') = "HX-20"%string /\
    List.length (anchors st') = 1%nat /\
    hefOK (signType st') (anchor st') (anchorEmbed st') = true.
Proof.
  eexists. split; [reflexivity|].
  split; [reflexivity|]. split; [reflexivity|]. split; [reflexivity|].
  match goal with
  | |- hefOK (signType ?s) _ _ = true =>
      exact (proj2 (proj1 (proj2 (proj2
               (import_anchors_selection Scenario2.wall_state
                  Scenario2.anchors_file s eq_refl))) eq_refl))
  end.
Defined.




(** X24.  The configuration import stores a passive-resistance factor
    between 0.1 and 1 (unchanged if it already lies there), a column count
    that is a whole number and at least 1, and a plate thickness from the
    stock list. *)
Theorem config_clamps (v : Q) :
  (0.1 <= cfg_etaPassive v <= 1 /\
   (0.1 <= v <= 1 -> cfg_etaPassive v == v)) /\
  (1 <= cfg_postQty v /\ exists k : Z, cfg_postQty v == inject_Z k) /\
  In (cfg_plateT v) Plate.PLATE_T_OPTIONS.
Proof.
  split; [|split].
  - unfold cfg_etaPassive. split; [split; minmax_lra | intro Hv; minmax_lra].
  - unfold cfg_postQty. split; [apply Q.le_max_l|].
    destruct (Q.max_spec 1 (JS.floor v)) as [[_ E]|[_ E]].
    + exists (Qfloor v). rewrite E. reflexivity.
    + exists 1%Z. rewrite E. reflexivity.
  - apply snapPlateT_in_stock.
Qed.

Lemma config_clamps_witness :
  0.1 <= 0.5 <= 1 /\ cfg_etaPassive 0.5 == 0.5.
Proof.
  assert (H : 0.1 <= 0.5 <= 1) by (split; discriminate).
  split; [exact H|].
  exact (proj2 (proj1 (config_clamps 0.5)) H).
Defined.

End Imports.
